(** * The diffusion process of ddpm.py, embedded in Rocq

    A shallow embedding of class [Diffusion] (ddpm.py): the noise schedule
    built by [__init__], the forward noising [noise_images], the timestep
    sampler [sample_timesteps] and the reverse sampling loop [sample].

    Modelling conventions.
    - torch floating-point tensors are tensors of real numbers: every
      arithmetic operation is the exact one of [R].  Rounding, overflow and
      NaN are outside the model.  [R] totalises [sqrt] and division
      ([sqrt] of a negative number and [x / 0] are [0]) where torch yields
      NaN or an infinity; on a schedule built from valid parameters every
      [beta], [alpha] and [alpha_hat] lies strictly between 0 and 1
      ([valid_schedule_ranges]), so that no method meets such a case.
    - a tensor of rank k is a k-fold nested list, rectangular by invariant;
      the empty list stands for every shape with a zero leading dimension.
    - Python exceptions are the [Raise] results of an error monad; the
      global random generator, the predictor's [training] flag, the trace of
      predictor calls, the logging output and the [Diffusion] object itself
      are the fields of an explicit [World] threaded by a state monad.
    - device placement is not modelled: [.to(device)] is the identity and
      all tensors live on one device, as with [device='cpu'] of [launch].
    - [torch.no_grad()] and the progress bar of [tqdm] have no effect on
      the values computed and are left out; [tqdm(it)] is [it]. *)

From Stdlib Require Import String DecimalString.
From Stdlib Require Import Reals Zfloor Lra Lia Psatz ZArith Bool List.
Import ListNotations.

Open Scope R_scope.

(** ** Exceptions *)

Inductive exn : Type :=
| IndexError    (* index out of bounds for a dimension *)
| RuntimeError. (* shapes that do not broadcast, invalid sizes or ranges *)

Inductive result (A : Type) : Type :=
| Ok (a : A)
| Raise (e : exn).
Arguments Ok {A} a.
Arguments Raise {A} e.

Definition rbind {A B} (r : result A) (k : A -> result B) : result B :=
  match r with
  | Ok a => k a
  | Raise e => Raise e
  end.

Declare Scope result_scope.
Delimit Scope result_scope with result.
Notation "x <- c ;; k" := (rbind c (fun x => k))
  (at level 61, c at next level, right associativity) : result_scope.

(** ** Tensors *)

Definition Tensor1 := list R.
Definition Tensor2 := list Tensor1.
Definition Tensor3 := list Tensor2.
Definition Tensor4 := list Tensor3.
Definition LongTensor := list Z.

Section Broadcast.
Context {A B C : Type}.
Variable f : A -> B -> result C.

Fixpoint mapM_l (y : B) (xs : list A) : result (list C) :=
  match xs with
  | [] => Ok []
  | x :: xs' => (r <- f x y ;; rs <- mapM_l y xs' ;; Ok (r :: rs))%result
  end.

Fixpoint mapM_r (x : A) (ys : list B) : result (list C) :=
  match ys with
  | [] => Ok []
  | y :: ys' => (r <- f x y ;; rs <- mapM_r x ys' ;; Ok (r :: rs))%result
  end.

Fixpoint zipM (xs : list A) (ys : list B) : result (list C) :=
  match xs, ys with
  | [], [] => Ok []
  | x :: xs', y :: ys' =>
      (r <- f x y ;; rs <- zipM xs' ys' ;; Ok (r :: rs))%result
  | _, _ => Raise RuntimeError
  end.

(** torch's broadcasting rule along one dimension: equal sizes pair up,
    a dimension of size 1 is stretched, anything else is an error. *)
Definition broadcast (xs : list A) (ys : list B) : result (list C) :=
  if Nat.eqb (length xs) (length ys) then zipM xs ys
  else match xs, ys with
       | [x], _ => mapM_r x ys
       | _, [y] => mapM_l y xs
       | _, _ => Raise RuntimeError
       end.
End Broadcast.

(** Element-wise binary operation on rank-4 tensors, broadcasting on every
    dimension. *)
Definition tbin (op : R -> R -> R) : Tensor4 -> Tensor4 -> result Tensor4 :=
  broadcast (broadcast (broadcast (broadcast (fun a b => Ok (op a b))))).

Definition tmul := tbin Rmult.
Definition tadd := tbin Rplus.
Definition tsub := tbin Rminus.
Definition tdiv := tbin Rdiv.

(** Element-wise unary operation (also: an operation with a Python scalar). *)
Definition tmap {A B} (f : A -> B)
  : list (list (list (list A))) -> list (list (list (list B))) :=
  map (map (map (map f))).

(** [v[:, None, None, None]] *)
Definition unsqueeze3 (v : Tensor1) : Tensor4 := map (fun a => [[[a]]]) v.

(** [v[t]] for a one-dimensional [v] and a one-dimensional index tensor [t]:
    an index in [[-len, len)] selects an element, negative indices counting
    from the end; any other index raises. *)
Definition index_one (v : Tensor1) (i : Z) : result R :=
  let len := Z.of_nat (length v) in
  if (- len <=? i)%Z && (i <? len)%Z
  then Ok (nth (Z.to_nat (if (i <? 0)%Z then i + len else i)%Z) v 0)
  else Raise IndexError.

Fixpoint index (v : Tensor1) (t : LongTensor) : result Tensor1 :=
  match t with
  | [] => Ok []
  | i :: t' => (a <- index_one v i ;; r <- index v t' ;; Ok (a :: r))%result
  end.

(** A tensor size given as a Python int: negative sizes raise. *)
Definition size_of (n : Z) : result nat :=
  if (n <? 0)%Z then Raise RuntimeError else Ok (Z.to_nat n).

(** [range(lo, hi)] *)
Definition range (lo hi : Z) : list Z :=
  map (fun k => (lo + Z.of_nat k)%Z) (seq 0 (Z.to_nat (hi - lo))).

(** Conversion of a float to an integer type truncates toward zero. *)
Definition Ztrunc (r : R) : Z :=
  if Rle_dec 0 r then Zfloor r else Zceil r.

(** ** The noise schedule *)

(** [torch.linspace(start, end, steps)]: no element for [steps = 0], [start]
    alone for [steps = 1], otherwise the first half counted up from [start]
    and the second half counted down from [end]. *)
Definition linspace (start end_ : R) (steps : Z) : result Tensor1 :=
  if (steps <? 0)%Z then Raise RuntimeError
  else if (steps =? 1)%Z then Ok [start]
  else
    let step := (end_ - start) / IZR (steps - 1) in
    let halfway := (steps / 2)%Z in
    Ok (map (fun idx => if (idx <? halfway)%Z
                        then start + step * IZR idx
                        else end_ - step * IZR (steps - idx - 1))
            (range 0 steps)).

(** [torch.cumprod(v, dim=0)]: [out[0] = v[0]], [out[i] = out[i-1] * v[i]]. *)
Fixpoint cumprod_from (acc : R) (v : Tensor1) : Tensor1 :=
  match v with
  | [] => []
  | a :: v' => acc * a :: cumprod_from (acc * a) v'
  end.

Definition cumprod (v : Tensor1) : Tensor1 :=
  match v with
  | [] => []
  | a :: v' => a :: cumprod_from a v'
  end.

Record Diffusion : Type := mkDiffusion {
  noise_steps : Z;
  beta_start : R;
  beta_end : R;
  img_size : Z;
  device : string;
  beta : Tensor1;
  alpha : Tensor1;
  alpha_hat : Tensor1
}.

Definition prepare_noise_schedule (steps : Z) (b_start b_end : R)
  : result Tensor1 :=
  linspace b_start b_end steps.

(** [Diffusion.__init__] *)
Definition init (steps : Z) (b_start b_end : R) (size : Z) (dev : string)
  : result Diffusion :=
  (b <- prepare_noise_schedule steps b_start b_end ;;
   let a := map (fun v => 1 - v) b in
   Ok (mkDiffusion steps b_start b_end size dev b a (cumprod a)))%result.

(** ** The world around a [Diffusion] object *)

(** The global random generator: the stream of standard-normal draws, the
    stream of raw integer draws, and the number of draws consumed so far. *)
Record Generator : Type := mkGenerator {
  normal : nat -> R;
  word : nat -> Z;
  pos : nat
}.

Definition advance (g : Generator) (k : nat) : Generator :=
  mkGenerator (normal g) (word g) (pos g + k).

Record World : Type := mkWorld {
  self : Diffusion;          (* the object the methods are called on *)
  training : bool;           (* the predictor's [training] flag *)
  gen : Generator;           (* torch's global generator *)
  calls : list LongTensor;   (* timestep batches of the predictor calls *)
  log : list string          (* records emitted through [logging] *)
}.

(** The noise predictor: an opaque callable whose output may depend on its
    mode.  It is total: a predictor that raises is outside the model. *)
Definition Predictor := bool -> Tensor4 -> LongTensor -> Tensor4.

Definition M (A : Type) : Type := World -> result A * World.

Definition ret {A} (a : A) : M A := fun w => (Ok a, w).

Definition bind {A B} (m : M A) (k : A -> M B) : M B :=
  fun w => match m w with
           | (Ok a, w') => k a w'
           | (Raise e, w') => (Raise e, w')
           end.

Definition lift {A} (r : result A) : M A := fun w => (r, w).

Declare Scope monad_scope.
Delimit Scope monad_scope with monad.
Notation "x <- c ;; k" := (bind c (fun x => k))
  (at level 61, c at next level, right associativity) : monad_scope.
Notation "c ;;; k" := (bind c (fun _ => k))
  (at level 61, right associativity) : monad_scope.

Definition get_self : M Diffusion := fun w => (Ok (self w), w).

Definition set_gen (w : World) (g : Generator) : World :=
  mkWorld (self w) (training w) g (calls w) (log w).

Definition set_training (b : bool) : M unit :=
  fun w => (Ok tt, mkWorld (self w) b (gen w) (calls w) (log w)).

(** [model.eval()] and [model.train()] *)
Definition model_eval : M unit := set_training false.
Definition model_train : M unit := set_training true.

(** [model(x, t)] *)
Definition call_model (model : Predictor) (x : Tensor4) (t : LongTensor)
  : M Tensor4 :=
  fun w => (Ok (model (training w) x t),
            mkWorld (self w) (training w) (gen w) (calls w ++ [t]) (log w)).

(** [logging.info(msg)] *)
Definition logging_info (msg : string) : M unit :=
  fun w => (Ok tt,
            mkWorld (self w) (training w) (gen w) (calls w) (log w ++ [msg])).

Definition string_of_Z (n : Z) : string := NilZero.string_of_int (Z.to_int n).

(** The tensor of shape [(n, c, h, w)] filled, in row-major order, with the
    normal draws that follow position [p]. *)
Definition normal_tensor (g : Generator) (n c h w : nat) : Tensor4 :=
  map (fun i =>
    map (fun j =>
      map (fun k =>
        map (fun l => normal g (pos g + (((i * c + j) * h + k) * w + l))%nat)
            (seq 0 w))
          (seq 0 h))
        (seq 0 c))
      (seq 0 n).

(** [torch.randn((n, c, h, w))] *)
Definition randn (n c h w : Z) : M Tensor4 :=
  fun s =>
    match size_of n, size_of c, size_of h, size_of w with
    | Ok n', Ok c', Ok h', Ok w' =>
        (Ok (normal_tensor (gen s) n' c' h' w'),
         set_gen s (advance (gen s) (n' * c' * h' * w')))
    | _, _, _, _ => (Raise RuntimeError, s)
    end.

(** [torch.zeros((n, c, h, w))] *)
Definition zeros (n c h w : Z) : M Tensor4 :=
  lift (n' <- size_of n ;; c' <- size_of c ;;
        h' <- size_of h ;; w' <- size_of w ;;
        Ok (repeat (repeat (repeat (repeat 0 w') h') c') n'))%result.

(** [torch.ones(n)] *)
Definition ones (n : Z) : result Tensor1 :=
  (n' <- size_of n ;; Ok (repeat 1 n'))%result.

(** The shape of a rank-4 tensor, read off its first elements. *)
Definition shape4 (x : Tensor4) : nat * nat * nat * nat :=
  (length x, length (hd [] x), length (hd [] (hd [] x)),
   length (hd [] (hd [] (hd [] x)))).

(** [torch.randn_like(x)] *)
Definition randn_like (x : Tensor4) : M Tensor4 :=
  fun s =>
    let '(n, c, h, w) := shape4 x in
    (Ok (normal_tensor (gen s) n c h w),
     set_gen s (advance (gen s) (n * c * h * w))).

(** [torch.randint(low=low, high=high, size=(n,))]: [n] raw draws reduced
    into [[low, high)]; an empty range raises. *)
Definition randint (low high n : Z) : M LongTensor :=
  fun s =>
    if (high <=? low)%Z then (Raise RuntimeError, s)
    else match size_of n with
         | Ok n' =>
             (Ok (map (fun k => (low + word (gen s) (pos (gen s) + k)
                                      mod (high - low))%Z)
                      (seq 0 n')),
              set_gen s (advance (gen s) n'))
         | Raise e => (Raise e, s)
         end.

Fixpoint for_loop {A S} (l : list A) (body : A -> S -> M S) (s : S) : M S :=
  match l with
  | [] => ret s
  | a :: l' => (s' <- body a s ;; for_loop l' body s')%monad
  end.

(** ** The methods of [Diffusion] *)

(** [Diffusion.noise_images] *)
Definition noise_images (x : Tensor4) (t : LongTensor)
  : M (Tensor4 * Tensor4) :=
  (d <- get_self ;;
   a1 <- lift (index (alpha_hat d) t) ;;
   let sqrt_alpha_hat := unsqueeze3 (map sqrt a1) in
   a2 <- lift (index (alpha_hat d) t) ;;
   let sqrt_cum_sinus_alpha_hat :=
     unsqueeze3 (map sqrt (map (fun v => 1 - v) a2)) in
   epsilon <- randn_like x ;;
   noisy <- lift (p1 <- tmul sqrt_alpha_hat x ;;
                  p2 <- tmul p1 sqrt_cum_sinus_alpha_hat ;;
                  tmul p2 epsilon)%result ;;
   ret (noisy, epsilon))%monad.

(** [Diffusion.sample_timesteps] *)
Definition sample_timesteps (n : Z) : M LongTensor :=
  (d <- get_self ;; randint 1 (noise_steps d) n)%monad.

(** The update of line 59, on tensors already looked up. *)
Definition reverse_update (alpha_t alpha_hat_t beta_t x predicted_noise z
  : Tensor4) : result Tensor4 :=
  (let inv_sqrt_alpha := tmap (fun v => 1 / v) (tmap sqrt alpha_t) in
   coef <- tdiv (tmap (fun v => 1 - v) alpha_t)
                (tmap sqrt (tmap (fun v => 1 - v) alpha_hat_t)) ;;
   scaled <- tmul coef predicted_noise ;;
   diff <- tsub x scaled ;;
   mean <- tmul inv_sqrt_alpha diff ;;
   noise <- tmul (tmap sqrt beta_t) z ;;
   tadd mean noise)%result.

(** One iteration of the loop of [Diffusion.sample], at counter value [i]. *)
Definition sample_step (model : Predictor) (n : Z) (i : Z) (x : Tensor4)
  : M Tensor4 :=
  (o <- lift (ones n) ;;
   let t := map Ztrunc (map (fun v => v * IZR i) o) in
   predicted_noise <- call_model model x t ;;
   d <- get_self ;;
   a <- lift (index (alpha d) t) ;;
   ah <- lift (index (alpha_hat d) t) ;;
   b <- lift (index (beta d) t) ;;
   z <- (if (1 <? i)%Z
         then randn n 3 (img_size d) (img_size d)
         else zeros n 3 (img_size d) (img_size d)) ;;
   lift (reverse_update (unsqueeze3 a) (unsqueeze3 ah) (unsqueeze3 b)
                        x predicted_noise z))%monad.

(** The loop of [Diffusion.sample]: the counter runs over
    [reversed(range(1, noise_steps))]. *)
Definition reverse_loop (model : Predictor) (n : Z) (x : Tensor4)
  : M Tensor4 :=
  (d <- get_self ;;
   for_loop (rev (range 1 (noise_steps d))) (sample_step model n) x)%monad.

(** [x.clamp(lo, hi)] on one element *)
Definition clamp (lo hi v : R) : R := Rmin (Rmax v lo) hi.

(** [.type(torch.uint8)] on one element: truncation toward zero, then
    reduction modulo 256. *)
Definition to_uint8 (v : R) : Z := (Ztrunc v mod 256)%Z.

(** Lines 63 and 64 of [Diffusion.sample]. *)
Definition postprocess (x : Tensor4) : list (list (list (list Z))) :=
  let x1 := tmap (fun v => v / 2) (tmap (fun v => v + 1) (tmap (clamp (-1) 1) x)) in
  tmap to_uint8 (tmap (fun v => v * 255) x1).

(** [Diffusion.sample] *)
Definition sample (model : Predictor) (n : Z)
  : M (list (list (list (list Z)))) :=
  (logging_info ("Sampling " ++ string_of_Z n ++ " new images...") ;;;
   model_eval ;;;
   d <- get_self ;;
   x0 <- randn n 3 (img_size d) (img_size d) ;;
   x <- reverse_loop model n x0 ;;
   model_train ;;;
   ret (postprocess x))%monad.

(** * Vocabulary of the statements *)

(** ** Shapes and elements *)

(** The tensor of shape [(n, c, h, w)] whose element at [(i, j, k, l)] is
    [f i j k l]. *)
Definition tab4 {A} (n c h w : nat) (f : nat -> nat -> nat -> nat -> A)
  : list (list (list (list A))) :=
  map (fun i =>
    map (fun j =>
      map (fun k => map (fun l => f i j k l) (seq 0 w)) (seq 0 h))
        (seq 0 c))
      (seq 0 n).

(** The element at [(i, j, k, l)], or [d] outside the tensor. *)
Definition get4 {A} (d : A) (x : list (list (list (list A))))
  (i j k l : nat) : A :=
  nth l (nth k (nth j (nth i x []) []) []) d.

(** [has_shape n c h w x]: [x] is rectangular, of shape [(n, c, h, w)]. *)
Definition shape1 {A} (w : nat) (x : list A) : Prop := length x = w.

Definition shape2 {A} (h w : nat) (x : list (list A)) : Prop :=
  length x = h /\ Forall (shape1 w) x.

Definition shape3 {A} (c h w : nat) (x : list (list (list A))) : Prop :=
  length x = c /\ Forall (shape2 h w) x.

Definition has_shape {A} (n c h w : nat) (x : list (list (list (list A))))
  : Prop :=
  length x = n /\ Forall (shape3 c h w) x.

(** A predictor whose output has the shape of the image batch it is given. *)
Definition shape_preserving (model : Predictor) (n c h w : nat) : Prop :=
  forall mode x t, has_shape n c h w x -> has_shape n c h w (model mode x t).

(** ** The schedule *)

(** The value at position [t] of the linear interpolation from [start] to
    [end_] in [steps] points, as the specification words it. *)
Definition linear_interpolation (start end_ : R) (steps : Z) (t : nat) : R :=
  start + (end_ - start) * IZR (Z.of_nat t) / IZR (steps - 1).

(** The product of [v[0..t]], as the specification words it. *)
Definition product_upto (v : Tensor1) (t : nat) : R :=
  fold_right Rmult 1 (firstn (S t) v).

(** A [Diffusion] object whose three sequences have [noise_steps] entries. *)
Definition well_formed (d : Diffusion) : Prop :=
  (0 <= noise_steps d)%Z /\
  length (beta d) = Z.to_nat (noise_steps d) /\
  length (alpha d) = Z.to_nat (noise_steps d) /\
  length (alpha_hat d) = Z.to_nat (noise_steps d).

(** An index tensor indexing accepts for [v]. *)
Definition in_bounds (v : Tensor1) (i : Z) : Prop :=
  (- Z.of_nat (length v) <= i < Z.of_nat (length v))%Z.

(** ** Reverse sampling *)

(** The update of one element as the specification writes it. *)
Definition reverse_step_formula (a ah b x eps z : R) : R :=
  1 / sqrt a * (x - (1 - a) / sqrt (1 - ah) * eps) + sqrt b * z.

(** The noise tensor [z] of the iteration at counter value [i]. *)
Definition step_noise (g : Generator) (i : Z) (n s : nat) : Tensor4 :=
  if (1 <? i)%Z then normal_tensor g n 3 s s
  else tab4 n 3 s s (fun _ _ _ _ => 0).

(** The generator after the iteration at counter value [i]. *)
Definition step_gen (g : Generator) (i : Z) (n s : nat) : Generator :=
  if (1 <? i)%Z then advance g (n * 3 * s * s) else g.

(** The state after the iteration at counter value [i], from the state [x],
    the prediction [eps] and the noise [z]. *)
Definition step_state (d : Diffusion) (i : Z) (n s : nat) (x eps z : Tensor4)
  : Tensor4 :=
  tab4 n 3 s s (fun b c h k =>
    reverse_step_formula (nth (Z.to_nat i) (alpha d) 0)
                         (nth (Z.to_nat i) (alpha_hat d) 0)
                         (nth (Z.to_nat i) (beta d) 0)
                         (get4 0 x b c h k) (get4 0 eps b c h k)
                         (get4 0 z b c h k)).

(** The state and the generator after the iterations at the counter values
    [l], in mode [mode], from the state [x] and the generator [g]. *)
Fixpoint loop_state (model : Predictor) (d : Diffusion) (mode : bool)
  (n s : nat) (l : list Z) (x : Tensor4) (g : Generator)
  : Tensor4 * Generator :=
  match l with
  | [] => (x, g)
  | i :: l' =>
      let eps := model mode x (repeat i n) in
      loop_state model d mode n s l'
        (step_state d i n s x eps (step_noise g i n s)) (step_gen g i n s)
  end.

(** The counter values of the loop, in the order they are visited. *)
Definition countdown (steps : Z) : list Z := rev (range 1 steps).

(** The record [sample] logs. *)
Definition sampling_message (n : Z) : string :=
  "Sampling " ++ string_of_Z n ++ " new images...".


(** A computation that leaves the [Diffusion] object as it found it. *)
Definition preserves_self {A} (m : M A) : Prop :=
  forall w, self (snd (m w)) = self w.

(** ** Forward noising *)

(** The elements [v[t]] selects when every index is in bounds. *)
Definition gather (v : Tensor1) (t : LongTensor) : Tensor1 :=
  map (fun i => nth (Z.to_nat (if (i <? 0)%Z
                               then i + Z.of_nat (length v) else i)) v 0) t.

(** What [noise_images] computes at element [(i, j, k, l)]: the two
    coefficients, the pixel and the noise, all multiplied together. *)
Definition noisy_value (ah x eps : R) : R :=
  sqrt ah * x * sqrt (1 - ah) * eps.

(** ** A small concrete process *)

(** [Diffusion(noise_steps=2, beta_start=0.25, beta_end=0.5, img_size=1)] *)
Definition demo : Diffusion :=
  let b0 := 1 / 4 + (1 / 2 - 1 / 4) / 1 * 0 in
  let b1 := 1 / 2 - (1 / 2 - 1 / 4) / 1 * 0 in
  mkDiffusion 2 (1 / 4) (1 / 2) 1 "cpu"
              [b0; b1] [1 - b0; 1 - b1] [1 - b0; (1 - b0) * (1 - b1)].

(** A world around [demo]: the predictor in mode [mode], a generator whose
    normal draws are all [z] and whose integer draws are all [0]. *)
Definition demo_world (mode : bool) (z : R) : World :=
  mkWorld demo mode (mkGenerator (fun _ => z) (fun _ => 0%Z) 0) [] [].

(** The predictor that predicts no noise at all. *)
Definition zero_predictor : Predictor :=
  fun _ x _ => tmap (fun _ => 0) x.

(** A batch of one image of [demo]'s size, 3 channels of 1 by 1 pixel, all
    ones. *)
Definition demo_image : Tensor4 := [[[[1]]; [[1]]; [[1]]]].


(** ** The specification's wording, where the code differs *)

(** The additive closed form, as the specification writes it. *)
Definition additive_form (ah x eps : R) : R :=
  sqrt ah * x + sqrt (1 - ah) * eps.



(** * Properties *)

(** ** Tensors in tabulated form *)

Lemma nth_map_seq {A} (f : nat -> A) (n i : nat) (d : A) :
  (i < n)%nat -> nth i (map f (seq 0 n)) d = f i.
Proof.
  intros Hi.
  rewrite nth_indep with (d' := f 0%nat)
    by (rewrite length_map, length_seq; exact Hi).
  rewrite map_nth with (d := 0%nat). now rewrite seq_nth.
Qed.

Lemma tabulate_nth {A} (d : A) (l : list A) :
  l = map (fun i => nth i l d) (seq 0 (length l)).
Proof.
  apply nth_ext with (d := d) (d' := d).
  - now rewrite length_map, length_seq.
  - intros i Hi. now rewrite nth_map_seq.
Qed.

Lemma map_seq_ext {A} (f g : nat -> A) (n : nat) :
  (forall i, (i < n)%nat -> f i = g i) ->
  map f (seq 0 n) = map g (seq 0 n).
Proof.
  intros H. apply map_ext_in. intros i Hi. apply in_seq in Hi.
  apply H. lia.
Qed.

Lemma repeat_map_seq {A} (a : A) (n : nat) :
  repeat a n = map (fun _ => a) (seq 0 n).
Proof.
  apply nth_ext with (d := a) (d' := a).
  - now rewrite repeat_length, length_map, length_seq.
  - intros i Hi. rewrite repeat_length in Hi.
    now rewrite nth_repeat, nth_map_seq.
Qed.

Lemma has_shape_tab4 {A} (n c h w : nat) (f : nat -> nat -> nat -> nat -> A) :
  has_shape n c h w (tab4 n c h w f).
Proof.
  unfold has_shape, shape3, shape2, shape1, tab4.
  repeat (split; [now rewrite length_map, length_seq|];
          apply Forall_map, Forall_forall; intros ? _; cbv beta).
  now rewrite length_map, length_seq.
Qed.

Lemma shape_tab4 {A} (d : A) (n c h w : nat) (x : list (list (list (list A)))) :
  has_shape n c h w x -> x = tab4 n c h w (get4 d x).
Proof.
  intros [Hn Hx]. unfold tab4, get4.
  rewrite (tabulate_nth [] x) at 1. rewrite Hn.
  apply map_seq_ext. intros i Hi.
  assert (H3 : shape3 c h w (nth i x [])).
  { rewrite Forall_forall in Hx. apply Hx, nth_In. lia. }
  destruct H3 as [Hc H3].
  rewrite (tabulate_nth [] (nth i x [])) at 1. rewrite Hc.
  apply map_seq_ext. intros j Hj.
  assert (H2 : shape2 h w (nth j (nth i x []) [])).
  { rewrite Forall_forall in H3. apply H3, nth_In. lia. }
  destruct H2 as [Hh H2].
  rewrite (tabulate_nth [] (nth j (nth i x []) [])) at 1. rewrite Hh.
  apply map_seq_ext. intros k Hk.
  assert (H1 : shape1 w (nth k (nth j (nth i x []) []) [])).
  { rewrite Forall_forall in H2. apply H2, nth_In. lia. }
  unfold shape1 in H1.
  rewrite (tabulate_nth d (nth k (nth j (nth i x []) []) [])) at 1.
  now rewrite H1.
Qed.

Lemma tab4_ext {A} (n c h w : nat) (f g : nat -> nat -> nat -> nat -> A) :
  (forall i j k l, (i < n)%nat -> (j < c)%nat -> (k < h)%nat -> (l < w)%nat ->
                   f i j k l = g i j k l) ->
  tab4 n c h w f = tab4 n c h w g.
Proof.
  intros H. unfold tab4.
  apply map_seq_ext; intros i Hi. apply map_seq_ext; intros j Hj.
  apply map_seq_ext; intros k Hk. apply map_seq_ext; intros l Hl.
  now apply H.
Qed.

Lemma get4_tab4 {A} (d : A) (n c h w : nat) f (i j k l : nat) :
  (i < n)%nat -> (j < c)%nat -> (k < h)%nat -> (l < w)%nat ->
  get4 d (tab4 n c h w f) i j k l = f i j k l.
Proof.
  intros Hi Hj Hk Hl. unfold get4, tab4.
  now rewrite !nth_map_seq.
Qed.

Lemma tmap_tab4 {A B} (g : A -> B) (n c h w : nat) f :
  tmap g (tab4 n c h w f) = tab4 n c h w (fun i j k l => g (f i j k l)).
Proof.
  unfold tmap, tab4. rewrite map_map.
  apply map_ext; intros i. rewrite map_map.
  apply map_ext; intros j. rewrite map_map.
  apply map_ext; intros k. now rewrite map_map.
Qed.

Lemma unsqueeze3_map_seq (f : nat -> R) (n : nat) :
  unsqueeze3 (map f (seq 0 n)) = tab4 n 1 1 1 (fun i _ _ _ => f i).
Proof. unfold unsqueeze3, tab4. now rewrite map_map. Qed.

(** ** Broadcasting on tabulated tensors *)

Section BroadcastLemmas.
Context {A B C I : Type}.
Variable F : A -> B -> result C.

Lemma zipM_map (f1 : I -> A) (f2 : I -> B) (G : I -> C) (l : list I) :
  (forall i, In i l -> F (f1 i) (f2 i) = Ok (G i)) ->
  zipM F (map f1 l) (map f2 l) = Ok (map G l).
Proof.
  induction l as [|i l IH]; intros H; simpl; [reflexivity|].
  rewrite H by now left. simpl.
  rewrite IH by (intros; apply H; now right). reflexivity.
Qed.

Lemma broadcast_map (f1 : I -> A) (f2 : I -> B) (G : I -> C) (l : list I) :
  (forall i, In i l -> F (f1 i) (f2 i) = Ok (G i)) ->
  broadcast F (map f1 l) (map f2 l) = Ok (map G l).
Proof.
  intros H. unfold broadcast.
  rewrite !length_map, Nat.eqb_refl. now apply zipM_map.
Qed.

Lemma mapM_r_map (x : A) (f2 : I -> B) (G : I -> C) (l : list I) :
  (forall i, In i l -> F x (f2 i) = Ok (G i)) ->
  mapM_r F x (map f2 l) = Ok (map G l).
Proof.
  induction l as [|i l IH]; intros H; simpl; [reflexivity|].
  rewrite H by now left. simpl.
  rewrite IH by (intros; apply H; now right). reflexivity.
Qed.

Lemma mapM_l_map (y : B) (f1 : I -> A) (G : I -> C) (l : list I) :
  (forall i, In i l -> F (f1 i) y = Ok (G i)) ->
  mapM_l F y (map f1 l) = Ok (map G l).
Proof.
  induction l as [|i l IH]; intros H; simpl; [reflexivity|].
  rewrite H by now left. simpl.
  rewrite IH by (intros; apply H; now right). reflexivity.
Qed.

Lemma broadcast_single_l (x : A) (f2 : I -> B) (G : I -> C) (l : list I) :
  (forall i, In i l -> F x (f2 i) = Ok (G i)) ->
  broadcast F [x] (map f2 l) = Ok (map G l).
Proof.
  intros H. unfold broadcast. rewrite length_map.
  destruct l as [|i [|i' l]]; simpl.
  - reflexivity.
  - rewrite H by now left. reflexivity.
  - change (mapM_r F x (map f2 (i :: i' :: l)) = Ok (map G (i :: i' :: l))).
    now apply mapM_r_map.
Qed.

Lemma broadcast_single_r (y : B) (f1 : I -> A) (G : I -> C) (l : list I) :
  (forall i, In i l -> F (f1 i) y = Ok (G i)) ->
  broadcast F (map f1 l) [y] = Ok (map G l).
Proof.
  intros H. unfold broadcast. rewrite length_map.
  destruct l as [|i [|i' l]]; simpl.
  - reflexivity.
  - rewrite H by now left. reflexivity.
  - change (mapM_l F y (map f1 (i :: i' :: l)) = Ok (map G (i :: i' :: l))).
    now apply mapM_l_map.
Qed.
End BroadcastLemmas.

Lemma tbin_tab4 (op : R -> R -> R) (n c h w : nat) f g :
  tbin op (tab4 n c h w f) (tab4 n c h w g)
  = Ok (tab4 n c h w (fun i j k l => op (f i j k l) (g i j k l))).
Proof.
  unfold tbin, tab4.
  apply broadcast_map; intros i _. apply broadcast_map; intros j _.
  apply broadcast_map; intros k _. apply broadcast_map; intros l _.
  reflexivity.
Qed.

Lemma tbin_coef_l (op : R -> R -> R) (n c h w : nat) (a : nat -> R) g :
  tbin op (tab4 n 1 1 1 (fun i _ _ _ => a i)) (tab4 n c h w g)
  = Ok (tab4 n c h w (fun i j k l => op (a i) (g i j k l))).
Proof.
  unfold tbin, tab4.
  apply broadcast_map; intros i _. apply broadcast_single_l; intros j _.
  apply broadcast_single_l; intros k _. apply broadcast_single_l; intros l _.
  reflexivity.
Qed.

Lemma tbin_coef_r (op : R -> R -> R) (n c h w : nat) (a : nat -> R) g :
  tbin op (tab4 n c h w g) (tab4 n 1 1 1 (fun i _ _ _ => a i))
  = Ok (tab4 n c h w (fun i j k l => op (g i j k l) (a i))).
Proof.
  unfold tbin, tab4.
  apply broadcast_map; intros i _. apply broadcast_single_r; intros j _.
  apply broadcast_single_r; intros k _. apply broadcast_single_r; intros l _.
  reflexivity.
Qed.

(** ** The schedule *)

Lemma length_range (lo hi : Z) : length (range lo hi) = Z.to_nat (hi - lo).
Proof. unfold range. now rewrite length_map, length_seq. Qed.


Lemma linspace_length (start end_ : R) (steps : Z) (b : Tensor1) :
  linspace start end_ steps = Ok b -> length b = Z.to_nat steps.
Proof.
  unfold linspace. destruct (steps <? 0)%Z; [discriminate|].
  destruct (steps =? 1)%Z eqn:E1; intros H; inversion H; subst; clear H.
  - apply Z.eqb_eq in E1. now subst.
  - rewrite length_map, length_range. f_equal. lia.
Qed.

Lemma linspace_succeeds (start end_ : R) (steps : Z) :
  (0 <= steps)%Z -> exists b, linspace start end_ steps = Ok b.
Proof.
  intros H. unfold linspace.
  destruct (steps <? 0)%Z eqn:E; [apply Z.ltb_lt in E; lia|].
  destruct (steps =? 1)%Z; eauto.
Qed.

Lemma linspace_raises (start end_ : R) (steps : Z) :
  (steps < 0)%Z -> linspace start end_ steps = Raise RuntimeError.
Proof.
  intros H. unfold linspace. apply Z.ltb_lt in H. now rewrite H.
Qed.

Lemma linspace_nth (start end_ : R) (steps : Z) (b : Tensor1) (t : nat) :
  (2 <= steps)%Z -> linspace start end_ steps = Ok b ->
  (t < Z.to_nat steps)%nat ->
  nth t b 0 = linear_interpolation start end_ steps t.
Proof.
  intros Hs Hb Ht. unfold linspace in Hb.
  destruct (steps <? 0)%Z eqn:E0; [apply Z.ltb_lt in E0; lia|].
  destruct (steps =? 1)%Z eqn:E1; [apply Z.eqb_eq in E1; lia|].
  inversion Hb; subst b; clear Hb. unfold range.
  rewrite map_map, nth_map_seq by (rewrite Z.sub_0_r; exact Ht).
  unfold linear_interpolation. rewrite Z.add_0_l.
  assert (Hn : IZR (steps - 1) <> 0) by (apply not_0_IZR; lia).
  destruct (Z.of_nat t <? steps / 2)%Z.
  - field. exact Hn.
  - replace (steps - Z.of_nat t - 1)%Z with (steps - 1 - Z.of_nat t)%Z by lia.
    rewrite (minus_IZR (steps - 1)). field. exact Hn.
Qed.

Lemma cumprod_from_length (acc : R) (v : Tensor1) :
  length (cumprod_from acc v) = length v.
Proof. revert acc. induction v; intros; simpl; [|rewrite IHv]; reflexivity. Qed.

Lemma cumprod_length (v : Tensor1) : length (cumprod v) = length v.
Proof. destruct v; simpl; [|rewrite cumprod_from_length]; reflexivity. Qed.

Lemma cumprod_from_nth (acc : R) (v : Tensor1) (t : nat) :
  (t < length v)%nat ->
  nth t (cumprod_from acc v) 0 = acc * product_upto v t.
Proof.
  unfold product_upto. revert acc t.
  induction v as [|a v IH]; intros acc t Ht; simpl in Ht; [lia|].
  destruct t as [|t].
  - simpl. destruct v; simpl; ring.
  - cbn [cumprod_from nth]. rewrite IH by lia.
    rewrite (firstn_cons (S t) a v). simpl fold_right. ring.
Qed.

Lemma cumprod_nth (v : Tensor1) (t : nat) :
  (t < length v)%nat -> nth t (cumprod v) 0 = product_upto v t.
Proof.
  destruct v as [|a v]; simpl; intros Ht; [lia|].
  destruct t as [|t].
  - unfold product_upto. simpl. destruct v; simpl; ring.
  - cbn [nth]. rewrite cumprod_from_nth by lia.
    unfold product_upto. rewrite (firstn_cons (S t) a v). reflexivity.
Qed.


Lemma init_inv steps b_start b_end size dev d :
  init steps b_start b_end size dev = Ok d ->
  exists b, linspace b_start b_end steps = Ok b /\
            d = mkDiffusion steps b_start b_end size dev b
                  (map (fun v => 1 - v) b) (cumprod (map (fun v => 1 - v) b)).
Proof.
  unfold init, prepare_noise_schedule.
  destruct (linspace b_start b_end steps) as [b|e]; simpl; intros H;
    inversion H. eauto.
Qed.

Lemma init_succeeds steps b_start b_end size dev :
  (0 <= steps)%Z -> exists d, init steps b_start b_end size dev = Ok d.
Proof.
  intros H. destruct (linspace_succeeds b_start b_end steps H) as [b Hb].
  unfold init, prepare_noise_schedule. rewrite Hb. simpl. eauto.
Qed.

Lemma init_well_formed steps b_start b_end size dev d :
  init steps b_start b_end size dev = Ok d -> well_formed d.
Proof.
  intros H. destruct (init_inv _ _ _ _ _ _ H) as [b [Hb ->]].
  pose proof (linspace_length _ _ _ _ Hb) as Hl.
  unfold well_formed; simpl.
  rewrite cumprod_length, length_map.
  repeat split; auto.
  unfold linspace in Hb. destruct (steps <? 0)%Z eqn:E; [discriminate|].
  apply Z.ltb_ge in E. exact E.
Qed.

(** ** Indexing and conversions *)

Lemma index_one_in_bounds (v : Tensor1) (i : Z) :
  in_bounds v i ->
  index_one v i
  = Ok (nth (Z.to_nat (if (i <? 0)%Z then i + Z.of_nat (length v) else i)) v 0).
Proof.
  unfold in_bounds, index_one. intros [H1 H2].
  apply Z.leb_le in H1. apply Z.ltb_lt in H2. now rewrite H1, H2.
Qed.

Lemma index_one_out_of_bounds (v : Tensor1) (i : Z) :
  ~ in_bounds v i -> index_one v i = Raise IndexError.
Proof.
  unfold in_bounds, index_one. intros H.
  destruct (- Z.of_nat (length v) <=? i)%Z eqn:E1;
    destruct (i <? Z.of_nat (length v))%Z eqn:E2; simpl; try reflexivity.
  apply Z.leb_le in E1. apply Z.ltb_lt in E2. lia.
Qed.

Lemma in_bounds_dec (v : Tensor1) (i : Z) : {in_bounds v i} + {~ in_bounds v i}.
Proof.
  unfold in_bounds.
  destruct (Z_le_dec (- Z.of_nat (length v)) i);
    destruct (Z_lt_dec i (Z.of_nat (length v))); (left; lia) || (right; lia).
Qed.

Lemma index_in_bounds (v : Tensor1) (t : LongTensor) :
  Forall (in_bounds v) t ->
  index v t
  = Ok (map (fun i => nth (Z.to_nat (if (i <? 0)%Z
                                     then i + Z.of_nat (length v) else i)) v 0)
            t).
Proof.
  induction 1 as [|i t Hi Ht IH]; simpl; [reflexivity|].
  now rewrite index_one_in_bounds, IH.
Qed.

Lemma index_out_of_bounds (v : Tensor1) (t : LongTensor) :
  Exists (fun i => ~ in_bounds v i) t -> index v t = Raise IndexError.
Proof.
  induction 1 as [i t Hi|i t Ht IH]; simpl.
  - now rewrite index_one_out_of_bounds.
  - rewrite IH. destruct (in_bounds_dec v i) as [Hi|Hi].
    + now rewrite index_one_in_bounds.
    + now rewrite index_one_out_of_bounds.
Qed.

Lemma index_repeat (v : Tensor1) (i : Z) (n : nat) :
  (0 <= i < Z.of_nat (length v))%Z ->
  index v (repeat i n) = Ok (repeat (nth (Z.to_nat i) v 0) n).
Proof.
  intros Hi. rewrite index_in_bounds.
  - rewrite map_repeat.
    destruct (i <? 0)%Z eqn:E; [apply Z.ltb_lt in E; lia|reflexivity].
  - apply Forall_forall. intros j Hj. apply repeat_spec in Hj. subst j.
    unfold in_bounds. lia.
Qed.

Lemma Ztrunc_IZR (i : Z) : Ztrunc (IZR i) = i.
Proof.
  unfold Ztrunc. destruct (Rle_dec 0 (IZR i)); [apply ZfloorZ|].
  unfold Zceil. rewrite ZfloorNZ. lia.
Qed.

(** [(torch.ones(n) * i).long()] is [n] copies of [i]. *)
Lemma timestep_batch (n : nat) (i : Z) :
  map Ztrunc (map (fun v => v * IZR i) (repeat 1 n)) = repeat i n.
Proof.
  rewrite !map_repeat. f_equal. rewrite Rmult_1_l. apply Ztrunc_IZR.
Qed.

Lemma size_of_nonneg (n : Z) : (0 <= n)%Z -> size_of n = Ok (Z.to_nat n).
Proof.
  intros H. unfold size_of.
  destruct (n <? 0)%Z eqn:E; [apply Z.ltb_lt in E; lia|reflexivity].
Qed.

Lemma zeros_tab4 (n c h w : nat) :
  repeat (repeat (repeat (repeat 0 w) h) c) n
  = tab4 n c h w (fun _ _ _ _ => 0).
Proof.
  unfold tab4.
  rewrite (repeat_map_seq 0 w).
  rewrite (repeat_map_seq (map (fun _ => 0) (seq 0 w)) h).
  rewrite (repeat_map_seq (map _ (seq 0 h)) c).
  now rewrite (repeat_map_seq (map _ (seq 0 c)) n).
Qed.

(** ** The reverse update *)

Lemma unsqueeze3_repeat (a : R) (n : nat) :
  unsqueeze3 (repeat a n) = tab4 n 1 1 1 (fun _ _ _ _ => a).
Proof. now rewrite repeat_map_seq, unsqueeze3_map_seq. Qed.

Lemma reverse_update_tab4 (n c h w : nat) (a ah b : R) fx fp fz :
  reverse_update (unsqueeze3 (repeat a n)) (unsqueeze3 (repeat ah n))
                 (unsqueeze3 (repeat b n))
                 (tab4 n c h w fx) (tab4 n c h w fp) (tab4 n c h w fz)
  = Ok (tab4 n c h w (fun i j k l =>
          reverse_step_formula a ah b (fx i j k l) (fp i j k l) (fz i j k l))).
Proof.
  unfold reverse_update, tdiv, tmul, tsub, tadd.
  rewrite !unsqueeze3_repeat, !tmap_tab4.
  rewrite tbin_tab4. cbn [rbind].
  rewrite (tbin_coef_l Rmult n c h w
             (fun _ => (1 - a) / sqrt (1 - ah)) fp). cbn [rbind].
  rewrite tbin_tab4. cbn [rbind].
  rewrite (tbin_coef_l Rmult n c h w (fun _ => 1 / sqrt a)). cbn [rbind].
  rewrite (tbin_coef_l Rmult n c h w (fun _ => sqrt b) fz). cbn [rbind].
  rewrite tbin_tab4. reflexivity.
Qed.

(** ** Running the monad *)

Lemma bind_ok {A B} (m : M A) (k : A -> M B) (w w' : World) (a : A) :
  m w = (Ok a, w') -> bind m k w = k a w'.
Proof. intros H. unfold bind. now rewrite H. Qed.

Lemma bind_raise {A B} (m : M A) (k : A -> M B) (w w' : World) (e : exn) :
  m w = (Raise e, w') -> bind m k w = (Raise e, w').
Proof. intros H. unfold bind. now rewrite H. Qed.

Lemma bind_lift_ok {A B} (r : result A) (k : A -> M B) (w : World) (a : A) :
  r = Ok a -> bind (lift r) k w = k a w.
Proof. intros ->. reflexivity. Qed.

Lemma randn_nonneg (n c h w : Z) (s : World) :
  (0 <= n)%Z -> (0 <= c)%Z -> (0 <= h)%Z -> (0 <= w)%Z ->
  randn n c h w s
  = (Ok (normal_tensor (gen s) (Z.to_nat n) (Z.to_nat c) (Z.to_nat h)
                       (Z.to_nat w)),
     set_gen s (advance (gen s)
                  (Z.to_nat n * Z.to_nat c * Z.to_nat h * Z.to_nat w))).
Proof.
  intros. unfold randn. now rewrite !size_of_nonneg.
Qed.

Lemma zeros_nonneg (n c h w : Z) (s : World) :
  (0 <= n)%Z -> (0 <= c)%Z -> (0 <= h)%Z -> (0 <= w)%Z ->
  zeros n c h w s
  = (Ok (tab4 (Z.to_nat n) (Z.to_nat c) (Z.to_nat h) (Z.to_nat w)
              (fun _ _ _ _ => 0)), s).
Proof.
  intros. unfold zeros, lift. rewrite !size_of_nonneg by assumption.
  cbn [rbind]. now rewrite zeros_tab4.
Qed.

(** ** One iteration of the reverse loop *)

Lemma step_noise_shape (g : Generator) (i : Z) (n s : nat) :
  has_shape n 3 s s (step_noise g i n s).
Proof.
  unfold step_noise. destruct (1 <? i)%Z; apply has_shape_tab4.
Qed.

Lemma sample_step_run (model : Predictor) (n i : Z) (x : Tensor4) (w : World) :
  let d := self w in
  let n' := Z.to_nat n in
  let s := Z.to_nat (img_size d) in
  let eps := model (training w) x (repeat i n') in
  (0 <= n)%Z -> (0 <= img_size d)%Z -> well_formed d ->
  (0 <= i < noise_steps d)%Z ->
  has_shape n' 3 s s x -> has_shape n' 3 s s eps ->
  sample_step model n i x w
  = (Ok (step_state d i n' s x eps (step_noise (gen w) i n' s)),
     mkWorld d (training w) (step_gen (gen w) i n' s)
             (calls w ++ [repeat i n']) (log w)).
Proof.
  intros d n' s eps Hn Hs (Hsteps & Hb & Ha & Hah) Hi Hx Heps.
  unfold sample_step, ones.
  rewrite (bind_lift_ok _ _ _ (repeat 1 n'))
    by (now rewrite size_of_nonneg).
  rewrite timestep_batch.
  erewrite bind_ok by reflexivity.
  erewrite bind_ok by reflexivity.
  cbn [self training gen calls log]. fold d.
  rewrite (bind_lift_ok _ _ _ _ (index_repeat (alpha d) i n' ltac:(lia))).
  rewrite (bind_lift_ok _ _ _ _ (index_repeat (alpha_hat d) i n' ltac:(lia))).
  rewrite (bind_lift_ok _ _ _ _ (index_repeat (beta d) i n' ltac:(lia))).
  fold eps.
  assert (Hupd : forall z, has_shape n' 3 s s z ->
    reverse_update (unsqueeze3 (repeat (nth (Z.to_nat i) (alpha d) 0) n'))
                   (unsqueeze3 (repeat (nth (Z.to_nat i) (alpha_hat d) 0) n'))
                   (unsqueeze3 (repeat (nth (Z.to_nat i) (beta d) 0) n'))
                   x eps z
    = Ok (step_state d i n' s x eps z)).
  { intros z Hz.
    rewrite (shape_tab4 0 _ _ _ _ x Hx) at 1.
    rewrite (shape_tab4 0 _ _ _ _ eps Heps) at 1.
    rewrite (shape_tab4 0 _ _ _ _ z Hz) at 1.
    apply reverse_update_tab4. }
  unfold step_noise, step_gen. destruct (1 <? i)%Z.
  - erewrite bind_ok by (apply randn_nonneg; lia).
    unfold lift. rewrite Hupd by apply has_shape_tab4.
    reflexivity.
  - erewrite bind_ok by (apply zeros_nonneg; lia).
    unfold lift. rewrite Hupd by apply has_shape_tab4.
    reflexivity.
Qed.

(** ** The reverse loop and [sample] as a whole *)

Lemma in_range (lo hi i : Z) : In i (range lo hi) <-> (lo <= i < hi)%Z.
Proof.
  unfold range. rewrite in_map_iff. split.
  - intros [k [<- Hk]]. apply in_seq in Hk. lia.
  - intros H. exists (Z.to_nat (i - lo)). split; [lia|].
    apply in_seq. lia.
Qed.

Lemma in_countdown (steps i : Z) :
  In i (countdown steps) <-> (1 <= i < steps)%Z.
Proof. unfold countdown. rewrite <- in_rev. apply in_range. Qed.



Lemma step_state_shape d i n s x eps z :
  has_shape n 3 s s (step_state d i n s x eps z).
Proof. apply has_shape_tab4. Qed.


Lemma for_loop_run (model : Predictor) (n : Z) (l : list Z) :
  forall (x : Tensor4) (w : World),
  let d := self w in
  let n' := Z.to_nat n in
  let s := Z.to_nat (img_size d) in
  (0 <= n)%Z -> (0 <= img_size d)%Z -> well_formed d ->
  shape_preserving model n' 3 s s ->
  Forall (fun i => 0 <= i < noise_steps d)%Z l ->
  has_shape n' 3 s s x ->
  for_loop l (sample_step model n) x w
  = (Ok (fst (loop_state model d (training w) n' s l x (gen w))),
     mkWorld d (training w)
             (snd (loop_state model d (training w) n' s l x (gen w)))
             (calls w ++ map (fun i => repeat i n') l) (log w)).
Proof.
  induction l as [|i l IH]; intros x w d n' s Hn Hs Hwf Hm Hl Hx.
  - simpl. unfold ret. rewrite app_nil_r. now destruct w.
  - inversion Hl as [|? ? Hi Hl']; subst. cbn [for_loop].
    erewrite bind_ok
      by (apply sample_step_run; auto; apply Hm; exact Hx).
    fold d n' s. rewrite IH; cbn [self training gen calls log img_size];
      fold d n' s; auto using step_state_shape.
    cbn [loop_state map]. now rewrite <- app_assoc.
Qed.

Lemma sample_run (model : Predictor) (n : Z) (w : World) :
  let d := self w in
  let n' := Z.to_nat n in
  let s := Z.to_nat (img_size d) in
  let x0 := normal_tensor (gen w) n' 3 s s in
  let g0 := advance (gen w) (n' * 3 * s * s) in
  let final := loop_state model d false n' s (countdown (noise_steps d)) x0 g0 in
  (0 <= n)%Z -> (0 <= img_size d)%Z -> well_formed d ->
  shape_preserving model n' 3 s s ->
  sample model n w
  = (Ok (postprocess (fst final)),
     mkWorld d true (snd final)
             (calls w ++ map (fun i => repeat i n') (countdown (noise_steps d)))
             (log w ++ [sampling_message n])).
Proof.
  intros d n' s x0 g0 final Hn Hs Hwf Hm.
  unfold sample, reverse_loop.
  erewrite bind_ok by reflexivity.
  erewrite bind_ok by reflexivity.
  erewrite bind_ok by reflexivity.
  cbn [self training gen calls log]. fold d.
  erewrite bind_ok by (apply randn_nonneg; cbn [self]; lia).
  unfold set_gen. cbn [self training gen calls log].
  change (Z.to_nat 3) with 3%nat. fold d n' s x0 g0.
  erewrite bind_ok.
  2:{ erewrite bind_ok by reflexivity.
      cbn [self training gen calls log].
      apply for_loop_run; cbn [self training gen calls log];
        fold d n' s; auto.
      - apply Forall_forall. intros i Hi. apply in_countdown in Hi. lia.
      - apply has_shape_tab4. }
  erewrite bind_ok by reflexivity.
  cbn [self training gen calls log]. reflexivity.
Qed.

(** ** The frame of the methods: the [Diffusion] object *)

Create HintDb frame.

Lemma preserves_self_ret {A} (a : A) : preserves_self (ret a).
Proof. intros w. reflexivity. Qed.

Lemma preserves_self_lift {A} (r : result A) : preserves_self (lift r).
Proof. intros w. reflexivity. Qed.

Lemma preserves_self_bind {A B} (m : M A) (k : A -> M B) :
  preserves_self m -> (forall a, preserves_self (k a)) ->
  preserves_self (bind m k).
Proof.
  intros Hm Hk w. unfold bind. specialize (Hm w).
  destruct (m w) as [[a|e] w']; simpl in *; [rewrite Hk|]; exact Hm.
Qed.

Lemma preserves_self_get_self : preserves_self get_self.
Proof. intros w. reflexivity. Qed.

Lemma preserves_self_set_training (b : bool) : preserves_self (set_training b).
Proof. intros w. reflexivity. Qed.

Lemma preserves_self_call_model model x t : preserves_self (call_model model x t).
Proof. intros w. reflexivity. Qed.

Lemma preserves_self_logging_info msg : preserves_self (logging_info msg).
Proof. intros w. reflexivity. Qed.

Lemma preserves_self_randn n c h w : preserves_self (randn n c h w).
Proof.
  intros s. unfold randn.
  destruct (size_of n), (size_of c), (size_of h), (size_of w); reflexivity.
Qed.

Lemma preserves_self_zeros n c h w : preserves_self (zeros n c h w).
Proof. intros s. reflexivity. Qed.

Lemma preserves_self_randn_like x : preserves_self (randn_like x).
Proof.
  intros s. unfold randn_like. destruct (shape4 x) as [[[n c] h] w].
  reflexivity.
Qed.

Lemma preserves_self_randint low high n : preserves_self (randint low high n).
Proof.
  intros s. unfold randint.
  destruct (high <=? low)%Z; [reflexivity|].
  destruct (size_of n); reflexivity.
Qed.

Lemma preserves_self_for_loop {A S} (l : list A) (body : A -> S -> M S) :
  (forall a s, preserves_self (body a s)) ->
  forall s, preserves_self (for_loop l body s).
Proof.
  intros Hb. induction l as [|a l IH]; intros s; simpl.
  - apply preserves_self_ret.
  - apply preserves_self_bind; auto.
Qed.

#[export] Hint Resolve preserves_self_ret preserves_self_lift
  preserves_self_bind preserves_self_get_self preserves_self_set_training
  preserves_self_call_model preserves_self_logging_info preserves_self_randn
  preserves_self_zeros preserves_self_randn_like preserves_self_randint
  preserves_self_for_loop : frame.

Ltac frame_step :=
  match goal with
  | |- forall _, _ => intro
  | |- preserves_self (bind _ _) => apply preserves_self_bind
  | |- preserves_self (for_loop _ _ _) => apply preserves_self_for_loop
  | |- preserves_self (if ?b then _ else _) => destruct b
  | |- preserves_self _ => solve [auto with frame]
  end.



Lemma preserves_self_sample_step model n i x :
  preserves_self (sample_step model n i x).
Proof. unfold sample_step. repeat frame_step. Qed.

#[export] Hint Resolve preserves_self_sample_step : frame.


(** ** Forward noising *)

Lemma gather_length (v : Tensor1) (t : LongTensor) :
  length (gather v t) = length t.
Proof. unfold gather. apply length_map. Qed.

Lemma index_gather (v : Tensor1) (t : LongTensor) :
  Forall (in_bounds v) t -> index v t = Ok (gather v t).
Proof. apply index_in_bounds. Qed.

Lemma unsqueeze3_tab4 (v : Tensor1) :
  unsqueeze3 v = tab4 (length v) 1 1 1 (fun i _ _ _ => nth i v 0).
Proof.
  rewrite (tabulate_nth 0 v) at 1. apply unsqueeze3_map_seq.
Qed.

Lemma randn_like_shape (n c h w : nat) (x : Tensor4) (s : World) :
  has_shape n c h w x ->
  randn_like x s
  = (Ok (normal_tensor (gen s) n c h w),
     set_gen s (advance (gen s) (n * c * h * w))).
Proof.
  intros [Hn Hx]. unfold randn_like, shape4.
  destruct x as [|x1 x]; simpl in Hn; subst n; [reflexivity|].
  apply Forall_inv in Hx. destruct Hx as [Hc H1]. cbn [hd length].
  destruct x1 as [|x11 x1]; simpl in Hc; subst c.
  { cbn [hd length]. unfold normal_tensor, advance. cbn [seq map].
    do 3 f_equal. lia. }
  apply Forall_inv in H1. destruct H1 as [Hh H2]. cbn [hd length].
  destruct x11 as [|x111 x11]; simpl in Hh; subst h.
  { cbn [hd length]. unfold normal_tensor, advance. cbn [seq map].
    do 3 f_equal. lia. }
  apply Forall_inv in H2. unfold shape1 in H2. cbn [hd length].
  now rewrite H2.
Qed.

Lemma nth_map_sqrt (v : Tensor1) (i : nat) :
  nth i (map sqrt v) 0 = sqrt (nth i v 0).
Proof. rewrite <- sqrt_0 at 1. apply map_nth. Qed.

Lemma nth_map_one_minus (v : Tensor1) (i : nat) :
  (i < length v)%nat -> nth i (map (fun a => 1 - a) v) 0 = 1 - nth i v 0.
Proof.
  intros Hi.
  rewrite nth_indep with (d' := 1 - 0) by (rewrite length_map; exact Hi).
  apply (map_nth (fun a => 1 - a)).
Qed.

Lemma noise_images_run (c h w : nat) (x : Tensor4) (t : LongTensor) (s : World) :
  let ah := alpha_hat (self s) in
  let n := length t in
  let eps := normal_tensor (gen s) n c h w in
  Forall (in_bounds ah) t ->
  has_shape n c h w x ->
  noise_images x t s
  = (Ok (tab4 n c h w (fun i j k l =>
           noisy_value (nth i (gather ah t) 0) (get4 0 x i j k l)
                       (get4 0 eps i j k l)),
         eps),
     set_gen s (advance (gen s) (n * c * h * w))).
Proof.
  intros ah n eps Ht Hx. unfold noise_images.
  erewrite bind_ok by reflexivity. fold ah.
  rewrite (bind_lift_ok _ _ _ _ (index_gather ah t Ht)).
  rewrite (bind_lift_ok _ _ _ _ (index_gather ah t Ht)).
  erewrite bind_ok by (apply randn_like_shape; exact Hx).
  fold n eps. unfold tmul.
  rewrite !unsqueeze3_tab4, !length_map, gather_length. fold n.
  rewrite (shape_tab4 0 _ _ _ _ x Hx) at 1.
  rewrite tbin_coef_l. cbn [rbind].
  rewrite tbin_coef_r. cbn [rbind].
  unfold eps at 1, normal_tensor. fold (tab4 n c h w
    (fun i j k l => normal (gen s) (pos (gen s) + (((i * c + j) * h + k) * w + l)))).
  rewrite tbin_tab4.
  erewrite bind_lift_ok by reflexivity.
  unfold ret. do 3 f_equal.
  apply tab4_ext. intros i j k l Hi Hj Hk Hl. unfold noisy_value, eps.
  unfold normal_tensor. fold (tab4 n c h w
    (fun i j k l => normal (gen s) (pos (gen s) + (((i * c + j) * h + k) * w + l)))).
  rewrite get4_tab4 by assumption.
  rewrite !nth_map_sqrt.
  rewrite nth_map_one_minus by (rewrite gather_length; exact Hi).
  reflexivity.
Qed.

(** ** Timestep sampling *)

Lemma sample_timesteps_run (n : Z) (s : World) :
  (1 < noise_steps (self s))%Z -> (0 <= n)%Z ->
  sample_timesteps n s
  = (Ok (map (fun k => (1 + word (gen s) (pos (gen s) + k)
                            mod (noise_steps (self s) - 1))%Z)
             (seq 0 (Z.to_nat n))),
     set_gen s (advance (gen s) (Z.to_nat n))).
Proof.
  intros Hs Hn. unfold sample_timesteps.
  erewrite bind_ok by reflexivity. unfold randint.
  destruct (noise_steps (self s) <=? 1)%Z eqn:E; [apply Z.leb_le in E; lia|].
  now rewrite size_of_nonneg.
Qed.

(** ** A small concrete process *)

Lemma init_demo : init 2 (1 / 4) (1 / 2) 1 "cpu" = Ok demo.
Proof. reflexivity. Qed.

Lemma demo_well_formed : well_formed demo.
Proof. exact (init_well_formed _ _ _ _ _ _ init_demo). Qed.

Lemma demo_alpha_hat_1 : nth 1 (alpha_hat demo) 0 = 3 / 8.
Proof. simpl. field. Qed.

Lemma tmap_shape {A B} (f : A -> B) (n c h w : nat) x :
  has_shape n c h w x -> has_shape n c h w (tmap f x).
Proof.
  intros [Hn H]. unfold tmap. split; [now rewrite length_map|].
  apply Forall_map. revert H. apply Forall_impl. intros x3 [Hc H3].
  split; [now rewrite length_map|].
  apply Forall_map. revert H3. apply Forall_impl. intros x2 [Hh H2].
  split; [now rewrite length_map|].
  apply Forall_map. revert H2. apply Forall_impl. intros x1 H1.
  unfold shape1 in *. now rewrite length_map.
Qed.

Lemma zero_predictor_shape (n c h w : nat) :
  shape_preserving zero_predictor n c h w.
Proof. intros mode x t Hx. now apply tmap_shape. Qed.

(** * The claims *)

(** ** Construction of the schedule *)

Lemma linear_interpolation_first (start end_ : R) (steps : Z) :
  (2 <= steps)%Z -> linear_interpolation start end_ steps 0 = start.
Proof.
  intros H. unfold linear_interpolation. simpl. field.
  apply not_0_IZR. lia.
Qed.

Lemma linear_interpolation_last (start end_ : R) (steps : Z) :
  (2 <= steps)%Z ->
  linear_interpolation start end_ steps (Z.to_nat (steps - 1)) = end_.
Proof.
  intros H. unfold linear_interpolation. rewrite Z2Nat.id by lia. field.
  apply not_0_IZR. lia.
Qed.


Lemma init_entries (steps : Z) (b_start b_end : R) (size : Z) (dev : string)
  (d : Diffusion) :
  (2 <= steps)%Z -> init steps b_start b_end size dev = Ok d ->
  length (beta d) = Z.to_nat steps /\
  length (alpha d) = Z.to_nat steps /\
  length (alpha_hat d) = Z.to_nat steps /\
  (forall t, (t < Z.to_nat steps)%nat ->
     nth t (beta d) 0 = linear_interpolation b_start b_end steps t) /\
  (forall t, (t < Z.to_nat steps)%nat ->
     nth t (alpha d) 0 = 1 - nth t (beta d) 0) /\
  (forall t, (t < Z.to_nat steps)%nat ->
     nth t (alpha_hat d) 0 = product_upto (alpha d) t).
Proof.
  intros Hs Hd.
  destruct (init_well_formed _ _ _ _ _ _ Hd) as (_ & Lb & La & Lh).
  destruct (init_inv _ _ _ _ _ _ Hd) as (b & Hb & ->).
  cbn [beta alpha alpha_hat noise_steps] in *.
  repeat split; try assumption.
  - intros; now apply linspace_nth.
  - intros t Ht. apply nth_map_one_minus. lia.
  - intros t Ht. apply cumprod_nth. lia.
Qed.

(** C4, amended: for every construction with [steps >= 2] the three
    sequences have [steps] entries; [beta] is the linear interpolation from
    [b_start] to [b_end], with [beta[0] = b_start] and
    [beta[steps-1] = b_end]; [alpha[t] = 1 - beta[t]]; and [alpha_hat[t]]
    is the product of [alpha[0..t]]. *)
Theorem init_schedule (steps : Z) (b_start b_end : R) (size : Z) (dev : string) :
  (2 <= steps)%Z ->
  exists d,
    init steps b_start b_end size dev = Ok d /\
    Z.of_nat (length (beta d)) = steps /\
    Z.of_nat (length (alpha d)) = steps /\
    Z.of_nat (length (alpha_hat d)) = steps /\
    (forall t, (t < Z.to_nat steps)%nat ->
       nth t (beta d) 0 = linear_interpolation b_start b_end steps t) /\
    nth 0 (beta d) 0 = b_start /\
    nth (Z.to_nat (steps - 1)) (beta d) 0 = b_end /\
    (forall t, (t < Z.to_nat steps)%nat ->
       nth t (alpha d) 0 = 1 - nth t (beta d) 0) /\
    (forall t, (t < Z.to_nat steps)%nat ->
       nth t (alpha_hat d) 0 = product_upto (alpha d) t).
Proof.
  intros Hs.
  destruct (init_succeeds steps b_start b_end size dev ltac:(lia)) as [d Hd].
  exists d. split; [exact Hd|].
  destruct (init_entries _ _ _ _ _ _ Hs Hd)
    as (Lb & La & Lh & Hbeta & Halpha & Hhat).
  repeat split; try lia; try assumption.
  - rewrite Hbeta by lia. now apply linear_interpolation_first.
  - rewrite Hbeta by lia. now apply linear_interpolation_last.
Qed.

Lemma init_schedule_witness :
  exists d, init 2 (1 / 4) (1 / 2) 1 "cpu" = Ok d /\
            nth 0 (beta d) 0 = 1 / 4 /\ nth 1 (beta d) 0 = 1 / 2.
Proof.
  destruct (init_schedule 2 (1 / 4) (1 / 2) 1 "cpu" ltac:(lia))
    as (d & Hd & _ & _ & _ & _ & H0 & H1 & _).
  exists d. repeat split; assumption.
Defined.

(** C4 as stated fails for a single step: [linspace] then yields
    [b_start] alone, so the last entry of [beta] is not [b_end]. *)
Lemma init_single_step_endpoint :
  exists d, init 1 (1 / 4) (1 / 2) 1 "cpu" = Ok d /\
            length (beta d) = 1%nat /\
            nth (Z.to_nat (1 - 1)) (beta d) 0 = 1 / 4 /\
            nth (Z.to_nat (1 - 1)) (beta d) 0 <> 1 / 2.
Proof.
  eexists. split; [reflexivity|]. simpl. repeat split. lra.
Qed.

(** C8, amended: construction validates nothing.  It raises exactly when
    [steps] is negative; for every [steps >= 0] and every pair of beta
    bounds it returns an object that records the parameters and carries
    three sequences of [steps] entries. *)
Theorem init_no_validation (steps : Z) (b_start b_end : R) (size : Z)
  (dev : string) :
  ((steps < 0)%Z /\ init steps b_start b_end size dev = Raise RuntimeError) \/
  ((0 <= steps)%Z /\
   exists d, init steps b_start b_end size dev = Ok d /\
             noise_steps d = steps /\ beta_start d = b_start /\
             beta_end d = b_end /\ img_size d = size /\ device d = dev /\
             length (beta d) = Z.to_nat steps /\
             length (alpha d) = Z.to_nat steps /\
             length (alpha_hat d) = Z.to_nat steps).
Proof.
  destruct (Z_lt_le_dec steps 0) as [H|H]; [left|right]; split; try exact H.
  - unfold init, prepare_noise_schedule. now rewrite linspace_raises.
  - destruct (init_succeeds steps b_start b_end size dev H) as [d Hd].
    exists d. split; [exact Hd|].
    destruct (init_well_formed _ _ _ _ _ _ Hd) as (_ & Lb & La & Lh).
    destruct (init_inv _ _ _ _ _ _ Hd) as (b & Hb & ->).
    cbn in *. repeat split; assumption.
Qed.

(** C8 as stated fails: a single step, bounds out of order and bounds
    outside (0, 1) are all accepted, and a schedule is returned. *)
Lemma init_accepts_invalid :
  (exists d, init 1 (1 / 2) (1 / 4) 1 "cpu" = Ok d /\
             beta d = [1 / 2] /\ alpha d = [1 - 1 / 2]) /\
  (exists d, init 0 (1 / 4) (1 / 2) 1 "cpu" = Ok d /\ beta d = []) /\
  (exists d, init 1 2 (- 1) 1 "cpu" = Ok d /\
             beta d = [2] /\ alpha d = [1 - 2]).
Proof.
  repeat split; eexists; repeat split; reflexivity.
Qed.

(** ** The invariant of [alpha_hat] *)






(** ** Forward noising: the closed form *)

Lemma has_shape_demo_image : has_shape 1 3 1 1 demo_image.
Proof.
  unfold has_shape, shape3, shape2, shape1, demo_image.
  repeat (split || apply Forall_cons || apply Forall_nil).
Qed.

Lemma demo_in_bounds (i : Z) :
  (-2 <= i < 2)%Z -> Forall (in_bounds (alpha_hat demo)) [i].
Proof.
  intros H. apply Forall_cons; [|apply Forall_nil]. unfold in_bounds. simpl. lia.
Qed.

(** C1, at a failing input: on the schedule of two steps, the image of
    all ones at timestep 1 with noise draws all [1] is returned with every
    pixel the product [sqrt ah * 1 * sqrt (1 - ah) * 1] of the four
    factors, [ah = alpha_hat[1] = 3/8], which is not the additive form
    [sqrt ah * 1 + sqrt (1 - ah) * 1]; the second component is the noise
    that was drawn. *)
Theorem noise_images_multiplies :
  nth 1 (alpha_hat demo) 0 = 3 / 8 /\
  fst (noise_images demo_image [1%Z] (demo_world true 1))
  = Ok ([[[[noisy_value (3 / 8) 1 1]];
          [[noisy_value (3 / 8) 1 1]];
          [[noisy_value (3 / 8) 1 1]]]], demo_image) /\
  noisy_value (3 / 8) 1 1 <> additive_form (3 / 8) 1 1.
Proof.
  split; [exact demo_alpha_hat_1|]. split.
  - rewrite (noise_images_run 3 1 1) by
      (try apply has_shape_demo_image; apply demo_in_bounds; lia).
    cbn [fst].
    change (Ok ([[[[noisy_value (nth 1 (alpha_hat demo) 0) 1 1]];
                  [[noisy_value (nth 1 (alpha_hat demo) 0) 1 1]];
                  [[noisy_value (nth 1 (alpha_hat demo) 0) 1 1]]]], demo_image)
            = Ok ([[[[noisy_value (3 / 8) 1 1]];
                    [[noisy_value (3 / 8) 1 1]];
                    [[noisy_value (3 / 8) 1 1]]]], demo_image)).
    now rewrite demo_alpha_hat_1.
  - unfold noisy_value, additive_form.
    assert (Ha : 0 < sqrt (3 / 8)) by (apply sqrt_lt_R0; lra).
    assert (Hb : 0 < sqrt (1 - 3 / 8)) by (apply sqrt_lt_R0; lra).
    assert (Hb1 : sqrt (1 - 3 / 8) < 1).
    { rewrite <- sqrt_1 at 2. apply sqrt_lt_1_alt. lra. }
    nra.
Qed.

(** ** Reverse sampling *)










Section Sampling.
Variable model : Predictor.
Variable n : Z.
Variable w : World.

Local Abbreviation d := (self w).
Local Abbreviation n' := (Z.to_nat n).
Local Abbreviation s := (Z.to_nat (img_size (self w))).

Hypothesis n_nonneg : (0 <= n)%Z.
Hypothesis size_nonneg : (0 <= img_size d)%Z.
Hypothesis self_well_formed : well_formed d.
Hypothesis model_shape : shape_preserving model n' 3 s s.





End Sampling.









(** ** Timestep indices accepted by [noise_images] *)

Section NoIndexError.
Context {A B C : Type}.
Variable f : A -> B -> result C.
Hypothesis f_no_index_error : forall a b, f a b <> Raise IndexError.

Lemma zipM_no_index_error (xs : list A) (ys : list B) :
  zipM f xs ys <> Raise IndexError.
Proof.
  revert ys. induction xs as [|x xs IH]; intros [|y ys]; simpl;
    try discriminate.
  pose proof (f_no_index_error x y). pose proof (IH ys).
  destruct (f x y); simpl; [|congruence].
  destruct (zipM f xs ys); simpl; congruence.
Qed.

Lemma mapM_r_no_index_error (x : A) (ys : list B) :
  mapM_r f x ys <> Raise IndexError.
Proof.
  induction ys as [|y ys IH]; simpl; [discriminate|].
  pose proof (f_no_index_error x y).
  destruct (f x y); simpl; [|congruence].
  destruct (mapM_r f x ys); simpl; congruence.
Qed.

Lemma mapM_l_no_index_error (y : B) (xs : list A) :
  mapM_l f y xs <> Raise IndexError.
Proof.
  induction xs as [|x xs IH]; simpl; [discriminate|].
  pose proof (f_no_index_error x y).
  destruct (f x y); simpl; [|congruence].
  destruct (mapM_l f y xs); simpl; congruence.
Qed.

Lemma broadcast_no_index_error (xs : list A) (ys : list B) :
  broadcast f xs ys <> Raise IndexError.
Proof.
  unfold broadcast. destruct (length xs =? length ys)%nat.
  - apply zipM_no_index_error.
  - destruct xs as [|x [|x' xs]].
    + destruct ys as [|y [|y' ys]]; discriminate.
    + apply mapM_r_no_index_error.
    + destruct ys as [|y [|y' ys]]; try discriminate.
      apply mapM_l_no_index_error.
Qed.
End NoIndexError.

Lemma tbin_no_index_error (op : R -> R -> R) (x y : Tensor4) :
  tbin op x y <> Raise IndexError.
Proof.
  unfold tbin. repeat apply broadcast_no_index_error. discriminate.
Qed.

Lemma randn_like_ok (x : Tensor4) (s : World) :
  exists eps s', randn_like x s = (Ok eps, s').
Proof.
  unfold randn_like. destruct (shape4 x) as [[[n c] h] w]. eauto.
Qed.

Lemma noise_images_in_bounds (x : Tensor4) (t : LongTensor) (s : World) :
  Forall (in_bounds (alpha_hat (self s))) t ->
  fst (noise_images x t s) <> Raise IndexError.
Proof.
  intros Ht. unfold noise_images.
  erewrite bind_ok by reflexivity.
  rewrite (bind_lift_ok _ _ _ _ (index_gather _ t Ht)).
  rewrite (bind_lift_ok _ _ _ _ (index_gather _ t Ht)).
  destruct (randn_like_ok x s) as (eps & s' & Heps).
  rewrite (bind_ok _ _ _ _ _ Heps).
  unfold bind, lift, ret, tmul.
  set (a := unsqueeze3 (map sqrt (gather (alpha_hat (self s)) t))).
  pose proof (tbin_no_index_error Rmult a x) as H1.
  destruct (tbin Rmult a x) as [p1|e1]; cbn [rbind fst]; [|congruence].
  set (b := unsqueeze3 _).
  pose proof (tbin_no_index_error Rmult p1 b) as H2.
  destruct (tbin Rmult p1 b) as [p2|e2]; cbn [rbind fst]; [|congruence].
  pose proof (tbin_no_index_error Rmult p2 eps) as H3.
  destruct (tbin Rmult p2 eps) as [p3|e3]; cbn [fst]; congruence.
Qed.

Lemma noise_images_out_of_bounds (x : Tensor4) (t : LongTensor) (s : World) :
  Exists (fun i => ~ in_bounds (alpha_hat (self s)) i) t ->
  fst (noise_images x t s) = Raise IndexError.
Proof.
  intros Ht. unfold noise_images.
  erewrite bind_ok by reflexivity.
  unfold bind, lift. now rewrite (index_out_of_bounds _ t Ht).
Qed.

(** C7, amended: [noise_images] raises an index error exactly when some
    entry of the timestep batch lies outside [[-noise_steps, noise_steps)];
    when all entries lie inside it, so in particular when all lie in
    [[1, noise_steps)], and the image batch has as many images as the
    timestep batch has entries, it raises nothing.  Index 0 and the
    negative indices down to [-noise_steps] are accepted. *)
Theorem noise_images_index_error (c h w : nat) (x : Tensor4) (t : LongTensor)
  (s : World) :
  well_formed (self s) ->
  (fst (noise_images x t s) = Raise IndexError <->
   Exists (fun i => ~ (- noise_steps (self s) <= i < noise_steps (self s))%Z)
          t) /\
  (Forall (fun i => (- noise_steps (self s) <= i < noise_steps (self s))%Z) t ->
   has_shape (length t) c h w x ->
   exists noisy eps, fst (noise_images x t s) = Ok (noisy, eps)) /\
  (Forall (fun i => (1 <= i < noise_steps (self s))%Z) t ->
   has_shape (length t) c h w x ->
   exists noisy eps, fst (noise_images x t s) = Ok (noisy, eps)).
Proof.
  intros (Hsteps & _ & _ & Hlen).
  assert (Hb : forall i, in_bounds (alpha_hat (self s)) i <->
                 (- noise_steps (self s) <= i < noise_steps (self s))%Z).
  { intros i. unfold in_bounds. rewrite Hlen, Z2Nat.id by exact Hsteps.
    reflexivity. }
  assert (Hok : Forall (fun i => (- noise_steps (self s) <= i
                                  < noise_steps (self s))%Z) t ->
                has_shape (length t) c h w x ->
                exists noisy eps, fst (noise_images x t s) = Ok (noisy, eps)).
  { intros Ht Hx.
    rewrite (noise_images_run c h w) by
      (try exact Hx; revert Ht; apply Forall_impl; intros i; apply Hb).
    do 2 eexists. reflexivity. }
  split; [|split; [exact Hok|]].
  - split.
    + intros Hraise.
      destruct (Forall_Exists_dec (in_bounds (alpha_hat (self s)))
                  (in_bounds_dec (alpha_hat (self s))) t) as [Hall|Hex].
      * now apply noise_images_in_bounds with (x := x) in Hall.
      * revert Hex. apply Exists_impl. intros i Hi Hn. apply Hi, Hb, Hn.
    + intros Hex. apply noise_images_out_of_bounds.
      revert Hex. apply Exists_impl. intros i Hi Hn. apply Hi, Hb, Hn.
  - intros Ht. apply Hok. revert Ht. apply Forall_impl. intros i Hi. lia.
Qed.

Lemma noise_images_index_error_witness :
  (fst (noise_images demo_image [2%Z] (demo_world true 1)) = Raise IndexError) /\
  (exists noisy eps,
     fst (noise_images demo_image [1%Z] (demo_world true 1)) = Ok (noisy, eps)).
Proof.
  split.
  - apply (noise_images_index_error 3 1 1 demo_image [2%Z] (demo_world true 1)
             demo_well_formed).
    apply Exists_cons_hd. simpl. lia.
  - apply (noise_images_index_error 3 1 1 demo_image [1%Z] (demo_world true 1)
             demo_well_formed).
    + apply Forall_cons; [simpl; lia|apply Forall_nil].
    + apply has_shape_demo_image.
Defined.

(** C7 as stated fails: on the schedule of two steps the timestep batches
    [[0]] and [[-1]], outside [[1, 2)], are accepted; they read
    [alpha_hat[0]] and [alpha_hat[1]]. *)
Lemma noise_images_accepts_zero :
  fst (noise_images demo_image [0%Z] (demo_world true 1))
  = Ok ([[[[noisy_value (nth 0 (alpha_hat demo) 0) 1 1]];
          [[noisy_value (nth 0 (alpha_hat demo) 0) 1 1]];
          [[noisy_value (nth 0 (alpha_hat demo) 0) 1 1]]]], demo_image) /\
  fst (noise_images demo_image [(-1)%Z] (demo_world true 1))
  = Ok ([[[[noisy_value (nth 1 (alpha_hat demo) 0) 1 1]];
          [[noisy_value (nth 1 (alpha_hat demo) 0) 1 1]];
          [[noisy_value (nth 1 (alpha_hat demo) 0) 1 1]]]], demo_image).
Proof.
  split.
  - rewrite (noise_images_run 3 1 1) by
      (try apply has_shape_demo_image; apply demo_in_bounds; lia).
    reflexivity.
  - rewrite (noise_images_run 3 1 1) by
      (try apply has_shape_demo_image; apply demo_in_bounds; lia).
    reflexivity.
Qed.

(** ** Timestep sampling *)

(** C10: for [noise_steps >= 2] and [n >= 0], [sample_timesteps n] returns
    [n] integers of [[1, noise_steps)]; the call changes nothing but the
    position of the generator, and its result is the same in every world
    with the same [noise_steps] and the same generator. *)
Theorem sample_timesteps_range (n : Z) (s : World) :
  (2 <= noise_steps (self s))%Z -> (0 <= n)%Z ->
  exists ts,
    sample_timesteps n s = (Ok ts, set_gen s (advance (gen s) (Z.to_nat n))) /\
    Z.of_nat (length ts) = n /\
    Forall (fun i => (1 <= i < noise_steps (self s))%Z) ts /\
    forall s2, noise_steps (self s2) = noise_steps (self s) ->
               gen s2 = gen s ->
               fst (sample_timesteps n s2) = Ok ts.
Proof.
  intros Hs Hn. eexists. split; [apply sample_timesteps_run; lia|].
  split; [rewrite length_map, length_seq; lia|]. split.
  - apply Forall_map, Forall_forall. intros k _.
    pose proof (Z.mod_pos_bound (word (gen s) (pos (gen s) + k))
                  (noise_steps (self s) - 1) ltac:(lia)).
    lia.
  - intros s2 Hsteps Hgen.
    rewrite sample_timesteps_run by lia. cbn [fst].
    now rewrite Hsteps, Hgen.
Qed.

Lemma sample_timesteps_range_witness :
  exists ts,
    fst (sample_timesteps 3 (demo_world true 0)) = Ok ts /\
    Z.of_nat (length ts) = 3%Z /\
    Forall (fun i => (1 <= i < 2)%Z) ts.
Proof.
  destruct (sample_timesteps_range 3 (demo_world true 0)
              ltac:(simpl; lia) ltac:(lia)) as (ts & H & Hl & Hr & _).
  exists ts. rewrite H. repeat split; assumption.
Defined.

(** * More of the code *)

(** ** The training loop's use of the process *)

(** Lines 87 to 90 of [train], for one batch: the timesteps are sampled for
    the images of the batch, the images are noised at them, and the
    predictor is called on the result.  What follows in [train] (the loss,
    the optimizer, the logger) belongs to collaborators. *)
Definition train_forward (model : Predictor) (images : Tensor4)
  : M (Tensor4 * Tensor4) :=
  (t <- sample_timesteps (Z.of_nat (length images)) ;;
   r <- noise_images images t ;;
   predicted_noise <- call_model model (fst r) t ;;
   ret (snd r, predicted_noise))%monad.

(** The [global_step] values [train] logs the loss at, for [epochs] epochs
    of [l] batches each (lines 81, 86 and 99), in the order logged. *)
Definition logged_steps (epochs l : Z) : list Z :=
  flat_map (fun epoch => map (fun i => (i * epoch * l)%Z) (range 0 l))
           (range 0 epochs).

(** ** What a computation leaves alone *)

(** [keeps R m]: [m] takes every world to one related to it by [R]. *)
Definition keeps {A} (R : World -> World -> Prop) (m : M A) : Prop :=
  forall w, R w (snd (m w)).

(** The world may differ in the generator's position only, and the
    position only grows. *)
Definition draws_only (w w' : World) : Prop :=
  self w' = self w /\ training w' = training w /\ calls w' = calls w /\
  log w' = log w /\ normal (gen w') = normal (gen w) /\
  word (gen w') = word (gen w) /\ (pos (gen w) <= pos (gen w'))%nat.

(** The predictor's mode is as it was. *)
Definition same_mode (w w' : World) : Prop := training w' = training w.

Section Keeps.
Variable R : World -> World -> Prop.
Hypothesis R_refl : forall w, R w w.
Hypothesis R_trans : forall w1 w2 w3, R w1 w2 -> R w2 w3 -> R w1 w3.

Lemma keeps_ret {A} (a : A) : keeps R (ret a).
Proof. intros w. apply R_refl. Qed.

Lemma keeps_lift {A} (r : result A) : keeps R (lift r).
Proof. intros w. apply R_refl. Qed.

Lemma keeps_get_self : keeps R get_self.
Proof. intros w. apply R_refl. Qed.

Lemma keeps_zeros n c h w : keeps R (zeros n c h w).
Proof. intros s. apply R_refl. Qed.

Lemma keeps_bind {A B} (m : M A) (k : A -> M B) :
  keeps R m -> (forall a, keeps R (k a)) -> keeps R (bind m k).
Proof.
  intros Hm Hk w. unfold bind. specialize (Hm w).
  destruct (m w) as [[a|e] w']; simpl in *; [|exact Hm].
  eapply R_trans; [exact Hm|apply Hk].
Qed.

Lemma keeps_for_loop {A S} (l : list A) (body : A -> S -> M S) :
  (forall a s, keeps R (body a s)) -> forall s, keeps R (for_loop l body s).
Proof.
  intros Hb. induction l as [|a l IH]; intros s; simpl.
  - apply keeps_ret.
  - apply keeps_bind; auto.
Qed.
End Keeps.

Lemma draws_only_refl w : draws_only w w.
Proof. unfold draws_only. repeat split; auto. Qed.

Lemma draws_only_trans w1 w2 w3 :
  draws_only w1 w2 -> draws_only w2 w3 -> draws_only w1 w3.
Proof.
  unfold draws_only. intros (A1 & A2 & A3 & A4 & A5 & A6 & A7)
                            (B1 & B2 & B3 & B4 & B5 & B6 & B7).
  repeat split; try congruence. lia.
Qed.

Lemma same_mode_refl w : same_mode w w.
Proof. reflexivity. Qed.

Lemma same_mode_trans w1 w2 w3 :
  same_mode w1 w2 -> same_mode w2 w3 -> same_mode w1 w3.
Proof. unfold same_mode. congruence. Qed.

Lemma draws_only_randn_like x : keeps draws_only (randn_like x).
Proof.
  intros s. unfold randn_like. destruct (shape4 x) as [[[n c] h] w].
  unfold draws_only. simpl. repeat split. lia.
Qed.

Lemma draws_only_randint low high n : keeps draws_only (randint low high n).
Proof.
  intros s. unfold randint.
  destruct (high <=? low)%Z; [apply draws_only_refl|].
  destruct (size_of n); [|apply draws_only_refl].
  unfold draws_only. simpl. repeat split. lia.
Qed.

Lemma same_mode_randn n c h w : keeps same_mode (randn n c h w).
Proof.
  intros s. unfold randn.
  destruct (size_of n), (size_of c), (size_of h), (size_of w); reflexivity.
Qed.

Lemma same_mode_call_model model x t : keeps same_mode (call_model model x t).
Proof. intros w. reflexivity. Qed.

Lemma same_mode_sample_step model n i x :
  keeps same_mode (sample_step model n i x).
Proof.
  unfold sample_step.
  repeat (apply (keeps_bind _ same_mode_trans); [|intros ?]);
    try apply (keeps_lift _ same_mode_refl);
    try apply (keeps_get_self _ same_mode_refl);
    try apply same_mode_call_model.
  destruct (1 <? i)%Z;
    [apply same_mode_randn|apply (keeps_zeros _ same_mode_refl)].
Qed.

Lemma same_mode_reverse_loop model n x :
  keeps same_mode (reverse_loop model n x).
Proof.
  unfold reverse_loop.
  apply (keeps_bind _ same_mode_trans);
    [apply (keeps_get_self _ same_mode_refl)|intros d].
  apply (keeps_for_loop _ same_mode_refl same_mode_trans).
  intros. apply same_mode_sample_step.
Qed.

(** ** The schedule *)





(** ** Forward noising: results, errors and broadcasting *)

Lemma nth_gather (v : Tensor1) (t : LongTensor) (i : nat) :
  (i < length t)%nat ->
  nth i (gather v t) 0
  = nth (Z.to_nat (if (nth i t 0 <? 0)%Z
                   then nth i t 0 + Z.of_nat (length v)
                   else nth i t 0)%Z) v 0.
Proof.
  intros Hi. unfold gather.
  set (f := fun j : Z => nth (Z.to_nat (if (j <? 0)%Z
                                        then j + Z.of_nat (length v)
                                        else j)) v 0).
  rewrite nth_indep with (d' := f 0%Z) by (rewrite length_map; exact Hi).
  apply (map_nth f).
Qed.

(** X3: for timesteps the indexing accepts and an image batch with one
    image per timestep, [noise_images] returns the noise it drew, of the
    shape of the images and made of the generator's next draws in
    row-major order, and a batch whose element [(i, j, k, l)] is
    [sqrt(alpha_hat[t_i]) * x * sqrt(1 - alpha_hat[t_i]) * noise], a
    negative [t_i] counting from the end; nothing but the generator's
    position changes. *)
Theorem noise_images_elementwise (c h w : nat) (x : Tensor4) (t : LongTensor)
  (s : World) :
  Forall (in_bounds (alpha_hat (self s))) t ->
  has_shape (length t) c h w x ->
  exists noisy eps s',
    noise_images x t s = (Ok (noisy, eps), s') /\
    has_shape (length t) c h w noisy /\
    has_shape (length t) c h w eps /\
    (forall i j k l,
       (i < length t)%nat -> (j < c)%nat -> (k < h)%nat -> (l < w)%nat ->
       get4 0 eps i j k l
       = normal (gen s) (pos (gen s) + (((i * c + j) * h + k) * w + l)) /\
       get4 0 noisy i j k l
       = sqrt (nth (Z.to_nat
                      (if (nth i t 0 <? 0)%Z
                       then nth i t 0 + Z.of_nat (length (alpha_hat (self s)))
                       else nth i t 0)%Z) (alpha_hat (self s)) 0)
         * get4 0 x i j k l
         * sqrt (1 - nth (Z.to_nat
                      (if (nth i t 0 <? 0)%Z
                       then nth i t 0 + Z.of_nat (length (alpha_hat (self s)))
                       else nth i t 0)%Z) (alpha_hat (self s)) 0)
         * get4 0 eps i j k l) /\
    draws_only s s' /\
    pos (gen s') = (pos (gen s) + length t * c * h * w)%nat.
Proof.
  intros Ht Hx. do 3 eexists.
  split; [apply (noise_images_run c h w); assumption|].
  split; [apply has_shape_tab4|]. split; [apply has_shape_tab4|].
  split; [|split].
  - intros i j k l Hi Hj Hk Hl.
    rewrite get4_tab4 by assumption. unfold noisy_value.
    rewrite nth_gather by exact Hi.
    unfold normal_tensor.
    fold (tab4 (length t) c h w (fun i j k l =>
            normal (gen s) (pos (gen s) + (((i * c + j) * h + k) * w + l)))).
    rewrite get4_tab4 by assumption. split; reflexivity.
  - unfold draws_only. simpl. repeat split. lia.
  - reflexivity.
Qed.

Lemma noise_images_elementwise_witness :
  exists noisy eps s',
    noise_images demo_image [1%Z] (demo_world true 1) = (Ok (noisy, eps), s') /\
    pos (gen s') = 3%nat.
Proof.
  destruct (noise_images_elementwise 3 1 1 demo_image [1%Z]
              (demo_world true 1) (demo_in_bounds 1 ltac:(lia))
              has_shape_demo_image)
    as (noisy & eps & s' & H & _ & _ & _ & _ & Hp).
  exists noisy, eps, s'. split; [exact H|exact Hp].
Defined.

(** X4: when some timestep is out of bounds, [noise_images] raises the
    index error before it draws any noise: the world, generator included,
    is exactly as it was. *)
Theorem noise_images_index_error_no_effect (x : Tensor4) (t : LongTensor)
  (s : World) :
  Exists (fun i => ~ in_bounds (alpha_hat (self s)) i) t ->
  noise_images x t s = (Raise IndexError, s).
Proof.
  intros Ht. unfold noise_images.
  erewrite bind_ok by reflexivity.
  unfold bind, lift. now rewrite (index_out_of_bounds _ t Ht).
Qed.

Lemma noise_images_index_error_no_effect_witness :
  noise_images demo_image [2%Z] (demo_world true 1)
  = (Raise IndexError, demo_world true 1).
Proof.
  apply noise_images_index_error_no_effect.
  apply Exists_cons_hd. unfold in_bounds. simpl. lia.
Defined.

Lemma broadcast_mismatch {A B C} (f : A -> B -> result C) xs ys :
  length xs <> length ys -> length xs <> 1%nat -> length ys <> 1%nat ->
  broadcast f xs ys = Raise RuntimeError.
Proof.
  intros Hne Hx Hy. unfold broadcast.
  destruct (length xs =? length ys)%nat eqn:E;
    [apply Nat.eqb_eq in E; contradiction|].
  destruct xs as [|x [|x' xs]]; destruct ys as [|y [|y' ys]];
    simpl in *; try reflexivity; congruence.
Qed.

(** X5: when the timestep batch and the image batch differ in length and
    neither has length 1, [noise_images] raises a shape error, and it has
    by then drawn the noise: the generator has advanced by the number of
    elements of the images. *)
Theorem noise_images_batch_mismatch (n c h w : nat) (x : Tensor4)
  (t : LongTensor) (s : World) :
  Forall (in_bounds (alpha_hat (self s))) t ->
  has_shape n c h w x ->
  length t <> n -> length t <> 1%nat -> n <> 1%nat ->
  noise_images x t s
  = (Raise RuntimeError, set_gen s (advance (gen s) (n * c * h * w))).
Proof.
  intros Ht Hx Hne Ht1 Hn1. unfold noise_images.
  erewrite bind_ok by reflexivity.
  rewrite (bind_lift_ok _ _ _ _ (index_gather _ t Ht)).
  rewrite (bind_lift_ok _ _ _ _ (index_gather _ t Ht)).
  erewrite bind_ok by (apply randn_like_shape; exact Hx).
  unfold bind, lift, tmul, tbin.
  rewrite broadcast_mismatch; [reflexivity| | |].
  - unfold unsqueeze3. rewrite !length_map, gather_length.
    destruct Hx as [Hx _]. congruence.
  - unfold unsqueeze3. now rewrite !length_map, gather_length.
  - destruct Hx as [Hx _]. congruence.
Qed.

Lemma noise_images_batch_mismatch_witness :
  noise_images (tab4 3 3 1 1 (fun _ _ _ _ => 1)) [1%Z; 1%Z] (demo_world true 1)
  = (Raise RuntimeError,
     set_gen (demo_world true 1) (advance (gen (demo_world true 1)) 9)).
Proof.
  apply (noise_images_batch_mismatch 3 3 1 1 _ [1%Z; 1%Z] (demo_world true 1)).
  - apply Forall_cons; [|apply Forall_cons; [|apply Forall_nil]];
      unfold in_bounds; simpl; lia.
  - apply has_shape_tab4.
  - simpl; lia.
  - simpl; lia.
  - lia.
Defined.

Lemma tbin_scalar_l (op : R -> R -> R) (n c h w : nat) (a : R) g :
  tbin op [[[[a]]]] (tab4 n c h w g)
  = Ok (tab4 n c h w (fun i j k l => op a (g i j k l))).
Proof.
  unfold tbin, tab4.
  apply broadcast_single_l; intros i _. apply broadcast_single_l; intros j _.
  apply broadcast_single_l; intros k _. apply broadcast_single_l; intros l _.
  reflexivity.
Qed.

Lemma tbin_scalar_r (op : R -> R -> R) (n c h w : nat) (a : R) g :
  tbin op (tab4 n c h w g) [[[[a]]]]
  = Ok (tab4 n c h w (fun i j k l => op (g i j k l) a)).
Proof.
  unfold tbin, tab4.
  apply broadcast_single_r; intros i _. apply broadcast_single_r; intros j _.
  apply broadcast_single_r; intros k _. apply broadcast_single_r; intros l _.
  reflexivity.
Qed.

(** X6: a timestep batch of one entry is broadcast over the image batch:
    for any number of images [noise_images] succeeds, and every image is
    scaled by the coefficients of that one timestep. *)
Theorem noise_images_single_timestep (n c h w : nat) (x : Tensor4) (i : Z)
  (s : World) :
  (0 <= i < Z.of_nat (length (alpha_hat (self s))))%Z ->
  has_shape n c h w x ->
  noise_images x [i] s
  = (Ok (tab4 n c h w (fun b j k l =>
           sqrt (nth (Z.to_nat i) (alpha_hat (self s)) 0)
           * get4 0 x b j k l
           * sqrt (1 - nth (Z.to_nat i) (alpha_hat (self s)) 0)
           * normal (gen s) (pos (gen s) + (((b * c + j) * h + k) * w + l))),
         normal_tensor (gen s) n c h w),
     set_gen s (advance (gen s) (n * c * h * w))).
Proof.
  intros Hi Hx. unfold noise_images.
  erewrite bind_ok by reflexivity.
  assert (Hidx : index (alpha_hat (self s)) [i]
                 = Ok [nth (Z.to_nat i) (alpha_hat (self s)) 0])
    by (apply (index_repeat _ i 1); exact Hi).
  rewrite (bind_lift_ok _ _ _ _ Hidx).
  rewrite (bind_lift_ok _ _ _ _ Hidx).
  erewrite bind_ok by (apply randn_like_shape; exact Hx).
  unfold tmul. cbn [map unsqueeze3].
  rewrite (shape_tab4 0 _ _ _ _ x Hx) at 1.
  rewrite tbin_scalar_l. cbn [rbind].
  rewrite tbin_scalar_r. cbn [rbind].
  unfold normal_tensor at 1.
  fold (tab4 n c h w (fun i j k l =>
          normal (gen s) (pos (gen s) + (((i * c + j) * h + k) * w + l)))).
  rewrite tbin_tab4.
  erewrite bind_lift_ok by reflexivity.
  reflexivity.
Qed.

Lemma noise_images_single_timestep_witness :
  exists noisy,
    fst (noise_images (tab4 2 3 1 1 (fun _ _ _ _ => 1)) [1%Z]
           (demo_world true 1))
    = Ok (noisy, normal_tensor (gen (demo_world true 1)) 2 3 1 1).
Proof.
  rewrite (noise_images_single_timestep 2 3 1 1 _ 1 (demo_world true 1)
             ltac:(simpl; lia) (has_shape_tab4 2 3 1 1 _)).
  eexists. reflexivity.
Defined.

Lemma index_shifted (v : Tensor1) (t : LongTensor) :
  Forall (fun i => 0 <= i < Z.of_nat (length v))%Z t ->
  index v (map (fun i => i - Z.of_nat (length v))%Z t) = index v t.
Proof.
  intros Ht.
  rewrite !index_in_bounds.
  - f_equal. rewrite map_map. apply map_ext_in. intros i Hi.
    rewrite Forall_forall in Ht. specialize (Ht i Hi).
    destruct (i - Z.of_nat (length v) <? 0)%Z eqn:E1;
      [|apply Z.ltb_ge in E1; lia].
    destruct (i <? 0)%Z eqn:E2; [apply Z.ltb_lt in E2; lia|].
    f_equal. lia.
  - revert Ht. apply Forall_impl. intros i Hi. unfold in_bounds. lia.
  - apply Forall_map. revert Ht. apply Forall_impl. intros i Hi.
    unfold in_bounds. lia.
Qed.

(** X7: negative timesteps count from the end of the schedule: with every
    entry of [t] in [[0, noise_steps)], [noise_images] at the timesteps
    [t - noise_steps] does exactly what it does at [t]. *)
Theorem noise_images_negative_timesteps (x : Tensor4) (t : LongTensor)
  (s : World) :
  well_formed (self s) ->
  Forall (fun i => 0 <= i < noise_steps (self s))%Z t ->
  noise_images x (map (fun i => i - noise_steps (self s))%Z t) s
  = noise_images x t s.
Proof.
  intros (Hsteps & _ & _ & Hlen) Ht.
  assert (Hl : Z.of_nat (length (alpha_hat (self s))) = noise_steps (self s))
    by (rewrite Hlen; apply Z2Nat.id; exact Hsteps).
  unfold noise_images.
  erewrite !bind_ok by reflexivity.
  rewrite <- Hl. rewrite index_shifted; [reflexivity|].
  revert Ht. apply Forall_impl. intros i Hi. lia.
Qed.

Lemma noise_images_negative_timesteps_witness :
  noise_images demo_image [(-1)%Z] (demo_world true 1)
  = noise_images demo_image [1%Z] (demo_world true 1).
Proof.
  apply (noise_images_negative_timesteps demo_image [1%Z] (demo_world true 1)
           demo_well_formed).
  apply Forall_cons; [simpl; lia|apply Forall_nil].
Defined.

(** ** Timestep sampling: errors, and its use in [train] *)

(** X8: [sample_timesteps] raises exactly when [noise_steps <= 1], the
    range [[1, noise_steps)] being empty, or [n] is negative; it then
    leaves the world, generator included, as it was. *)
Theorem sample_timesteps_raises (n : Z) (s : World) :
  ((noise_steps (self s) <= 1 \/ n < 0)%Z /\
   sample_timesteps n s = (Raise RuntimeError, s)) \/
  ((2 <= noise_steps (self s))%Z /\ (0 <= n)%Z /\
   exists ts, sample_timesteps n s
              = (Ok ts, set_gen s (advance (gen s) (Z.to_nat n)))).
Proof.
  destruct (Z_le_gt_dec (noise_steps (self s)) 1) as [Hs|Hs].
  - left. split; [now left|].
    unfold sample_timesteps. erewrite bind_ok by reflexivity.
    unfold randint. apply Z.leb_le in Hs. now rewrite Hs.
  - destruct (Z_lt_le_dec n 0) as [Hn|Hn].
    + left. split; [now right|].
      unfold sample_timesteps. erewrite bind_ok by reflexivity.
      unfold randint, size_of.
      destruct (noise_steps (self s) <=? 1)%Z; [reflexivity|].
      apply Z.ltb_lt in Hn. now rewrite Hn.
    + right. split; [lia|]. split; [exact Hn|].
      eexists. apply sample_timesteps_run; lia.
Qed.

(** X9: one batch of [train] up to the prediction: on a well-formed
    process of at least two steps and a rectangular image batch, the
    sampled timesteps lie in [[1, noise_steps)], [noise_images] accepts
    them, and the predictor is called once, in the mode it is in, on a
    noisy batch of the shape of the images; the noise handed to the loss
    has that shape too. *)
Theorem train_forward_succeeds (model : Predictor) (c h w : nat)
  (images : Tensor4) (s : World) :
  well_formed (self s) -> (2 <= noise_steps (self s))%Z ->
  has_shape (length images) c h w images ->
  exists t x_t noise s',
    train_forward model images s
    = (Ok (noise, model (training s) x_t t), s') /\
    length t = length images /\
    Forall (fun i => 1 <= i < noise_steps (self s))%Z t /\
    has_shape (length images) c h w x_t /\
    has_shape (length images) c h w noise /\
    calls s' = calls s ++ [t] /\
    training s' = training s /\ self s' = self s.
Proof.
  intros Hwf Hs Hx.
  destruct Hwf as (Hsteps & _ & _ & Hlen).
  set (t := map (fun k => (1 + word (gen s) (pos (gen s) + k)
                               mod (noise_steps (self s) - 1))%Z)
                (seq 0 (Z.to_nat (Z.of_nat (length images))))).
  assert (Hlt : length t = length images)
    by (unfold t; rewrite length_map, length_seq; apply Nat2Z.id).
  assert (Hr : Forall (fun i => 1 <= i < noise_steps (self s))%Z t).
  { unfold t. apply Forall_map, Forall_forall. intros k _.
    pose proof (Z.mod_pos_bound (word (gen s) (pos (gen s) + k))
                  (noise_steps (self s) - 1) ltac:(lia)).
    lia. }
  set (s1 := set_gen s (advance (gen s)
                          (Z.to_nat (Z.of_nat (length images))))).
  assert (Hb : Forall (in_bounds (alpha_hat (self s1))) t).
  { revert Hr. apply Forall_impl. intros i Hi. unfold in_bounds. cbn [self s1 set_gen].
    rewrite Hlen, Z2Nat.id by exact Hsteps. lia. }
  rewrite <- Hlt in Hx.
  pose proof (noise_images_run c h w images t s1 Hb Hx) as Hrun.
  exists t. do 3 eexists. split.
  { unfold train_forward.
    erewrite bind_ok by (apply sample_timesteps_run; lia).
    fold t s1. erewrite bind_ok by exact Hrun.
    cbn [fst snd]. erewrite bind_ok by reflexivity. reflexivity. }
  cbn [self training calls set_gen s1].
  rewrite <- Hlt.
  split; [reflexivity|]. split; [exact Hr|].
  split; [apply has_shape_tab4|]. split; [apply has_shape_tab4|].
  repeat split.
Qed.

Lemma train_forward_succeeds_witness :
  exists t x_t noise s',
    train_forward zero_predictor demo_image (demo_world true 1)
    = (Ok (noise, zero_predictor true x_t t), s') /\
    length t = 1%nat /\ calls s' = [t].
Proof.
  destruct (train_forward_succeeds zero_predictor 3 1 1 demo_image
              (demo_world true 1) demo_well_formed ltac:(simpl; lia)
              has_shape_demo_image)
    as (t & x_t & noise & s' & H & Hl & _ & _ & _ & Hc & _).
  exists t, x_t, noise, s'. repeat split; assumption.
Defined.

(** ** Reverse sampling: the predictor's mode, errors and edge cases *)

Lemma bind_cases {A B} (m : M A) (k : A -> M B) (w : World) :
  (exists a w', m w = (Ok a, w') /\ bind m k w = k a w') \/
  (exists e w', m w = (Raise e, w') /\ bind m k w = (Raise e, w')).
Proof.
  unfold bind. destruct (m w) as [[a|e] w']; [left|right]; eauto.
Qed.

(** X10: the mode [sample] leaves the predictor in is decided by how the
    call ends: training mode when it returns, evaluation mode when it
    raises, since [model.train()] is reached only after the loop. *)
Theorem sample_mode_after (model : Predictor) (n : Z) (w : World) :
  training (snd (sample model n w))
  = match fst (sample model n w) with
    | Ok _ => true
    | Raise _ => false
    end.
Proof.
  unfold sample.
  erewrite bind_ok by reflexivity.
  erewrite bind_ok by reflexivity.
  erewrite bind_ok by reflexivity.
  cbn [self training gen calls log].
  set (w2 := mkWorld (self w) false (gen w) (calls w)
                     (log w ++ [sampling_message n])).
  fold (sampling_message n). fold w2.
  destruct (bind_cases (randn n 3 (img_size (self w)) (img_size (self w)))
              (fun x0 => (x <- reverse_loop model n x0 ;; model_train ;;;
                          ret (postprocess x))%monad) w2)
    as [(x0 & w3 & H1 & ->)|(e & w3 & H1 & ->)].
  2:{ pose proof (same_mode_randn n 3 (img_size (self w))
                    (img_size (self w)) w2) as Hm.
      rewrite H1 in Hm. exact Hm. }
  assert (Hw3 : training w3 = false).
  { pose proof (same_mode_randn n 3 (img_size (self w))
                  (img_size (self w)) w2) as Hm.
    rewrite H1 in Hm. exact Hm. }
  destruct (bind_cases (reverse_loop model n x0)
              (fun x => (model_train ;;; ret (postprocess x))%monad) w3)
    as [(x & w4 & H2 & ->)|(e & w4 & H2 & ->)].
  - reflexivity.
  - pose proof (same_mode_reverse_loop model n x0 w3) as Hm.
    rewrite H2 in Hm. unfold same_mode in Hm. cbn [fst snd] in *. congruence.
Qed.

(** X11: with [noise_steps <= 1] the loop is empty: [sample] never calls
    the predictor and returns the initial noise, post-processed. *)
Theorem sample_without_steps (model : Predictor) (n : Z) (w : World) :
  (0 <= n)%Z -> (0 <= img_size (self w))%Z -> (noise_steps (self w) <= 1)%Z ->
  sample model n w
  = (Ok (postprocess (normal_tensor (gen w) (Z.to_nat n) 3
                        (Z.to_nat (img_size (self w)))
                        (Z.to_nat (img_size (self w))))),
     mkWorld (self w) true
       (advance (gen w) (Z.to_nat n * 3 * Z.to_nat (img_size (self w))
                         * Z.to_nat (img_size (self w))))
       (calls w) (log w ++ [sampling_message n])).
Proof.
  intros Hn Hs Hsteps. unfold sample, reverse_loop.
  erewrite bind_ok by reflexivity.
  erewrite bind_ok by reflexivity.
  erewrite bind_ok by reflexivity.
  cbn [self training gen calls log].
  erewrite bind_ok by (apply randn_nonneg; cbn [self]; lia).
  unfold set_gen. cbn [self training gen calls log].
  erewrite bind_ok.
  2:{ erewrite bind_ok by reflexivity. cbn [self].
      unfold range. replace (Z.to_nat (noise_steps (self w) - 1)) with 0%nat
        by lia.
      reflexivity. }
  erewrite bind_ok by reflexivity. reflexivity.
Qed.

Lemma sample_without_steps_witness :
  exists out g,
    sample zero_predictor 2
      (mkWorld (mkDiffusion 1 (1 / 4) (1 / 2) 1 "cpu"
                            [1 / 4] [1 - 1 / 4] [1 - 1 / 4])
               false (mkGenerator (fun _ => 0) (fun _ => 0%Z) 0) [] [])
    = (Ok out,
       mkWorld (mkDiffusion 1 (1 / 4) (1 / 2) 1 "cpu"
                            [1 / 4] [1 - 1 / 4] [1 - 1 / 4])
               true g [] [sampling_message 2]).
Proof.
  rewrite sample_without_steps; [|lia|simpl; lia|simpl; lia].
  do 2 eexists. reflexivity.
Defined.

(** X12: a negative batch size or image size makes [sample] raise at the
    first [torch.randn]: the predictor is never called and no noise is
    drawn, but the record has been logged and the predictor stays in
    evaluation mode. *)
Theorem sample_negative_size (model : Predictor) (n : Z) (w : World) :
  (n < 0 \/ img_size (self w) < 0)%Z ->
  sample model n w
  = (Raise RuntimeError,
     mkWorld (self w) false (gen w) (calls w)
             (log w ++ [sampling_message n])).
Proof.
  intros H. unfold sample.
  erewrite bind_ok by reflexivity.
  erewrite bind_ok by reflexivity.
  erewrite bind_ok by reflexivity.
  cbn [self training gen calls log].
  apply bind_raise. unfold randn, size_of. cbn [Z.ltb Z.compare].
  destruct H as [H|H]; apply Z.ltb_lt in H; rewrite H.
  - reflexivity.
  - destruct (n <? 0)%Z; reflexivity.
Qed.

Lemma sample_negative_size_witness :
  sample zero_predictor (-1) (demo_world true 0)
  = (Raise RuntimeError,
     mkWorld demo false (gen (demo_world true 0)) [] [sampling_message (-1)]).
Proof.
  apply (sample_negative_size zero_predictor (-1) (demo_world true 0)).
  left. lia.
Defined.

(** X13: the images [sample] returns do not depend on the mode the
    predictor is in when [sample] is called: every prediction is made in
    evaluation mode. *)
Theorem sample_ignores_entry_mode (model : Predictor) (n : Z) (d : Diffusion)
  (g : Generator) (c : list LongTensor) (l : list string) (mode : bool) :
  (0 <= n)%Z -> (0 <= img_size d)%Z -> well_formed d ->
  shape_preserving model (Z.to_nat n) 3 (Z.to_nat (img_size d))
                   (Z.to_nat (img_size d)) ->
  fst (sample model n (mkWorld d mode g c l))
  = fst (sample model n (mkWorld d false g c l)) /\
  gen (snd (sample model n (mkWorld d mode g c l)))
  = gen (snd (sample model n (mkWorld d false g c l))).
Proof.
  intros Hn Hs Hwf Hm.
  rewrite !sample_run by assumption.
  split; reflexivity.
Qed.

Lemma sample_ignores_entry_mode_witness :
  fst (sample zero_predictor 1 (demo_world true 0))
  = fst (sample zero_predictor 1 (demo_world false 0)).
Proof.
  apply (sample_ignores_entry_mode zero_predictor 1 demo
           (mkGenerator (fun _ => 0) (fun _ => 0%Z) 0) [] [] true
           ltac:(lia) ltac:(simpl; lia) demo_well_formed
           (zero_predictor_shape 1 3 1 1)).
Defined.















(** ** The steps [train] logs the loss at *)

(** X17: [train] logs the loss at [global_step = i * epoch * l]: every
    batch of epoch 0 is logged at step 0, so with one epoch, as [launch]
    sets it, all [l] records carry the step 0; the number of records in a
    run that completes is [epochs * l]. *)
Theorem logged_steps_first_epoch (epochs l : Z) :
  (1 <= epochs)%Z -> (0 <= l)%Z ->
  Z.of_nat (length (logged_steps epochs l)) = (epochs * l)%Z /\
  firstn (Z.to_nat l) (logged_steps epochs l) = repeat 0%Z (Z.to_nat l) /\
  logged_steps 1 l = repeat 0%Z (Z.to_nat l).
Proof.
  intros He Hl.
  assert (H0 : map (fun i => (i * 0 * l)%Z) (range 0 l)
               = repeat 0%Z (Z.to_nat l)).
  { unfold range. rewrite Z.sub_0_r, map_map, repeat_map_seq.
    apply map_ext. intros k. lia. }
  split; [|split].
  - unfold logged_steps.
    assert (G : forall es,
      length (flat_map (fun epoch => map (fun i => (i * epoch * l)%Z)
                                         (range 0 l)) es)
      = (length es * Z.to_nat l)%nat).
    { induction es as [|e es IH]; cbn [flat_map length]; [reflexivity|].
      rewrite length_app, IH, length_map, length_range.
      rewrite Z.sub_0_r. lia. }
    rewrite G, length_range. lia.
  - unfold logged_steps, range at 2.
    replace (Z.to_nat (epochs - 0)) with (S (Z.to_nat (epochs - 1))) by lia.
    cbn [seq map flat_map]. cbn [Z.add Z.of_nat]. rewrite H0.
    rewrite firstn_app, repeat_length, Nat.sub_diag. cbn [firstn].
    rewrite app_nil_r. apply firstn_all2. rewrite repeat_length. lia.
  - unfold logged_steps. change (range 0 1) with [0%Z]. cbn [flat_map].
    rewrite app_nil_r. exact H0.
Qed.

Lemma logged_steps_first_epoch_witness :
  logged_steps 1 3 = [0%Z; 0%Z; 0%Z] /\
  firstn 2 (logged_steps 2 2) = [0%Z; 0%Z].
Proof.
  split.
  - apply (logged_steps_first_epoch 1 3); lia.
  - apply (logged_steps_first_epoch 2 2); lia.
Defined.

(** ** Reverse sampling: what is never read, and the empty batch *)

Lemma loop_state_agree model d1 d2 mode n s l :
  Forall (fun i => 1 <= i)%Z l ->
  (forall t, (1 <= t)%nat -> nth t (alpha d1) 0 = nth t (alpha d2) 0) ->
  (forall t, (1 <= t)%nat -> nth t (alpha_hat d1) 0 = nth t (alpha_hat d2) 0) ->
  (forall t, (1 <= t)%nat -> nth t (beta d1) 0 = nth t (beta d2) 0) ->
  forall x g,
    loop_state model d1 mode n s l x g = loop_state model d2 mode n s l x g.
Proof.
  intros Hl Ha Hh Hb. induction Hl as [|i l Hi Hl IH]; intros x g.
  - reflexivity.
  - cbn [loop_state]. rewrite <- IH. f_equal.
    unfold step_state.
    assert (Ht : (1 <= Z.to_nat i)%nat) by (clear - Hi; lia).
    rewrite (Ha _ Ht), (Hh _ Ht), (Hb _ Ht). reflexivity.
Qed.

(** X18: [sample] never reads the entry 0 of the schedule: its counter
    stops at 1, so two processes whose [beta], [alpha] and [alpha_hat]
    agree from index 1 on, with the same [noise_steps] and [img_size],
    return the same images. *)
Theorem sample_never_reads_step_zero (model : Predictor) (n : Z)
  (d1 d2 : Diffusion) (mode : bool) (g : Generator) (c : list LongTensor)
  (l : list string) :
  (0 <= n)%Z -> (0 <= img_size d1)%Z ->
  well_formed d1 -> well_formed d2 ->
  noise_steps d1 = noise_steps d2 -> img_size d1 = img_size d2 ->
  (forall t, (1 <= t)%nat -> nth t (beta d1) 0 = nth t (beta d2) 0) ->
  (forall t, (1 <= t)%nat -> nth t (alpha d1) 0 = nth t (alpha d2) 0) ->
  (forall t, (1 <= t)%nat -> nth t (alpha_hat d1) 0 = nth t (alpha_hat d2) 0) ->
  shape_preserving model (Z.to_nat n) 3 (Z.to_nat (img_size d1))
                   (Z.to_nat (img_size d1)) ->
  fst (sample model n (mkWorld d1 mode g c l))
  = fst (sample model n (mkWorld d2 mode g c l)).
Proof.
  intros Hn Hs Hwf1 Hwf2 Hsteps Hsize Hb Ha Hh Hm.
  rewrite (sample_run model n (mkWorld d1 mode g c l)) by assumption.
  rewrite (sample_run model n (mkWorld d2 mode g c l));
    cbn [self]; try assumption; try (rewrite <- Hsize; assumption).
  cbn [fst self gen]. rewrite <- Hsteps, <- Hsize.
  rewrite (loop_state_agree model d1 d2); try assumption.
  - reflexivity.
  - apply Forall_forall. intros i Hi. apply in_countdown in Hi. lia.
Qed.

Lemma sample_never_reads_step_zero_witness :
  fst (sample zero_predictor 1 (demo_world false 0))
  = fst (sample zero_predictor 1
           (mkWorld (mkDiffusion 2 (1 / 4) (1 / 2) 1 "cpu"
                       [0; nth 1 (beta demo) 0] [7; nth 1 (alpha demo) 0]
                       [9; nth 1 (alpha_hat demo) 0])
                    false (mkGenerator (fun _ => 0) (fun _ => 0%Z) 0) [] [])).
Proof.
  apply (sample_never_reads_step_zero zero_predictor 1 demo _ false
           (mkGenerator (fun _ => 0) (fun _ => 0%Z) 0) [] []);
    try exact demo_well_formed; try (simpl; lia); try reflexivity;
    try apply zero_predictor_shape.
  - intros [|[|t]] Ht; [lia|reflexivity|reflexivity].
  - intros [|[|t]] Ht; [lia|reflexivity|reflexivity].
  - intros [|[|t]] Ht; [lia|reflexivity|reflexivity].
Defined.




